(** * acf_pytorch: the attention networks of [nets.py]

    A shallow embedding of [FeatureNet] and [UserNet] (file [nets.py]).

    - The code computes on float32 tensors.  The embedding is written once,
      over the arithmetic of the tensor entries ([Num.t]), and read at two
      arithmetics: [Binary32], IEEE 754 binary32 with round to nearest
      even, which is the arithmetic of the code, and [Exact], the real
      numbers, which is the arithmetic the formulas of the specification are
      written in.  A property stated for every arithmetic holds of the code;
      a property of [Exact] alone holds of the code up to rounding only.
    - The tensor primitives the two classes call ([torch.tensor],
      [nn.Embedding], [nn.Linear], [expand], [torch.cat], [F.relu],
      [F.softmax], broadcasting [*] and [+], [sum]) are modelled on tensors
      of rank 0, 1 and 2 together with the shape checks under which the
      framework raises.  Sums run in index order.
    - A method is a computation over the module object and the framework's
      random generator: it receives both and returns a value or a raised
      exception together with the object and the generator after the
      call. *)

From Stdlib Require Import Reals Lra Lia ZArith SpecFloat.
From stdpp Require Import base option list gmap strings.

#[local] Open Scope R_scope.

(** ** Exceptions and results *)

Inductive exn :=
| KeyError (key : string)   (* dict[key] on a missing key *)
| TypeError                 (* torch.tensor(None, dtype=...) *)
| ValueError                (* a ragged nested list, an empty list of tensors *)
| IndexError                (* index or dimension out of range *)
| RuntimeError.             (* shape or dtype rejected by a tensor primitive *)

Inductive result (A : Type) :=
| Ok (a : A)
| Raise (e : exn).
Arguments Ok {A} a.
Arguments Raise {A} e.

Definition rbind {A B} (r : result A) (k : A -> result B) : result B :=
  match r with Ok a => k a | Raise e => Raise e end.

(** ** The arithmetic of tensor entries *)

Module Num.

(** The operations the code applies to tensor entries, and the value the
    framework's generator yields in each of its states. *)
Class t (A : Type) := Build {
  zero : A;
  one : A;
  add : A -> A -> A;
  sub : A -> A -> A;
  mul : A -> A -> A;
  div : A -> A -> A;
  exp : A -> A;
  max : A -> A -> A;
  normal : nat -> A
}.

End Num.

(** *** Exact arithmetic *)

#[export] Instance Exact : Num.t R :=
  Num.Build R 0 1 Rplus Rminus Rmult Rdiv exp Rmax INR.

(** *** binary32 *)

Module F32.

Definition prec : Z := 24.
Definition emax : Z := 128.

(** The float nearest to [m * 2^e]. *)
Definition make (m e : Z) : spec_float := binary_normalize prec emax m e false.

Definition of_Z (m : Z) : spec_float := make m 0.

Definition nan : spec_float := S754_nan.
Definition inf : spec_float := S754_infinity false.

Definition add : spec_float -> spec_float -> spec_float := SFadd prec emax.
Definition sub : spec_float -> spec_float -> spec_float := SFsub prec emax.
Definition mul : spec_float -> spec_float -> spec_float := SFmul prec emax.
Definition div : spec_float -> spec_float -> spec_float := SFdiv prec emax.

(** The larger of two floats; a nan operand gives nan, as [clamp_min] and
    the reduction of [softmax] do. *)
Definition max (x y : spec_float) : spec_float :=
  match x, y with
  | S754_nan, _ | _, S754_nan => S754_nan
  | _, _ => if SFltb x y then y else x
  end.

(** [ln 2 * 2^200], rounded down. *)
Definition ln2_200 : Z :=
  1113844574712631719546256151097547306333272293549090750737802.

(** [e^(r / 2^200) * 2^200] for [|r| <= 2^200], by the Taylor series with
    [n] terms (Horner's scheme, in fixed point). *)
Fixpoint taylor (n : nat) (k : Z) (r : Z) : Z :=
  match n with
  | O => 2 ^ 200
  | S n' => 2 ^ 200 + (r * taylor n' (k + 1) r) / (k * 2 ^ 200)
  end.

(** The exponential: exact at zeros, infinities and nan, and elsewhere
    [e^x] computed to 200 bits and rounded to nearest, which is within the
    unit in the last place the library's [exp] is accurate to. *)
Definition exp (x : spec_float) : spec_float :=
  match x with
  | S754_nan => S754_nan
  | S754_zero _ => of_Z 1
  | S754_infinity false => S754_infinity false
  | S754_infinity true => S754_zero false
  | S754_finite s m e =>
      if SFltb (of_Z 89) x then S754_infinity false
      else if SFltb x (of_Z (-104)) then S754_zero false
      else
        let v := ((if s then Z.neg m else Z.pos m) * 2 ^ (200 + e))%Z in
        let k := ((2 * v + ln2_200) / (2 * ln2_200))%Z in
        let r := (v - k * ln2_200)%Z in
        make (taylor 40 1 r) (k - 200)
  end.


(** Neither an infinity nor nan. *)
Definition finite (x : spec_float) : bool :=
  match x with
  | S754_zero _ | S754_finite _ _ _ => true
  | S754_infinity _ | S754_nan => false
  end.

End F32.

#[export] Instance Binary32 : Num.t spec_float :=
  Num.Build spec_float (F32.of_Z 0) (F32.of_Z 1) F32.add F32.sub F32.mul F32.div
    F32.exp F32.max (fun n => F32.of_Z (Z.of_nat n)).

(** ** Methods: object, generator and exception passing *)

(** The state of the framework's random generator. *)
Definition generator : Type := nat.

Module Meth.

(** A method of an object of type [S] returning a [T]. *)
Definition t (S T : Type) : Type := S -> generator -> result T * S * generator.

Definition ret {S T} (a : T) : t S T := fun s g => (Ok a, s, g).

Definition raise {S T} (e : exn) : t S T := fun s g => (Raise e, s, g).

Definition bind {S T U} (m : t S T) (k : T -> t S U) : t S U :=
  fun s g => match m s g with
             | (Ok a, s', g') => k a s' g'
             | (Raise e, s', g') => (Raise e, s', g')
             end.

(** Read an attribute of [self]. *)
Definition attr {S T} (f : S -> T) : t S T := fun s g => (Ok (f s), s, g).

(** Call a function that takes neither [self] nor the generator. *)
Definition pure {S T} (r : result T) : t S T := fun s g => (r, s, g).

(** Draw the next value from the generator, as [normal_], [uniform_] and
    dropout do. *)
Definition draw {S A} `{Num.t A} : t S A :=
  fun s g => (Ok (Num.normal g), s, (g + 1)%nat).

(** Call a method of a sub-module stored in attribute [get] of [self];
    the sub-module object is shared, so what the callee leaves behind is
    what [self] holds afterwards. *)
Definition call {S S' T} (get : S -> S') (set : S' -> S -> S)
                (m : t S' T) : t S T :=
  fun s g => let '(r, s', g') := m (get s) g in (r, set s' s, g').

(** What a method returns on an object (with the generator in its initial
    state). *)
Definition value {S T} (m : t S T) (s : S) : result T := (m s O).1.1.

(** A computation that reads: what it returns is a function of the object
    alone, and it hands back the object and the generator it was given. *)
Definition reads {S T} (m : t S T) : Prop :=
  forall s g, m s g = (value m s, s, g).

End Meth.

Notation "x <- m ;; k" := (Meth.bind m (fun x => k))
  (at level 100, m at next level, right associativity).

(** ** Tensors *)

(** Tensors of rank 0, 1 and 2 with entries in [A].  A rank-2 tensor carries
    its number of columns, so that the shapes [(0, c)] and [(n, 0)] are
    told apart. *)
Inductive tensor (A : Type) :=
| T0 (x : A)
| T1 (v : list A)
| T2 (ncols : nat) (rows : list (list A)).
Arguments T0 {A} x.
Arguments T1 {A} v.
Arguments T2 {A} ncols rows.

Definition shape {A} (x : tensor A) : list nat :=
  match x with
  | T0 _ => []
  | T1 v => [length v]
  | T2 c rows => [length rows; c]
  end.

Definition numel {A} (x : tensor A) : nat :=
  match x with
  | T0 _ => 1%nat
  | T1 v => length v
  | T2 c rows => (length rows * c)%nat
  end.

(** Every row of a rank-2 tensor has the declared width. *)
Definition rect {A} (c : nat) (rows : list (list A)) : bool :=
  forallb (fun r => length r =? c)%nat rows.

(** Index tensors, as [torch.tensor] builds them from Python ints.
    [torch.tensor([])] has no element to infer an integer dtype from and
    is a float tensor of shape [(0,)]. *)
Inductive index :=
| IScalar (i : nat)
| IVector (l : list nat)
| IEmptyFloat.

Definition tensor_of_int (i : nat) : index := IScalar i.

Definition tensor_of_ints (l : list nat) : index :=
  match l with
  | [] => IEmptyFloat
  | _ => IVector l
  end.

(** [torch.tensor(data, dtype=torch.float32)] on what a caller passes as
    [features]: [None], or array data of rank at most 2. *)
Definition tensor_of_data {A} (data : option (tensor A)) : result (tensor A) :=
  match data with
  | None => Raise TypeError
  | Some (T2 c rows) => if rect c rows then Ok (T2 c rows) else Raise ValueError
  | Some x => Ok x
  end.

(** *** Sums and products *)

(** The sum of a vector, accumulated from zero in index order. *)
Definition vsum {A} `{Num.t A} (v : list A) : A := foldl Num.add Num.zero v.

Definition dot {A} `{Num.t A} (u v : list A) : A := vsum (zip_with Num.mul u v).

Definition zeros {A} `{Num.t A} (n : nat) : list A := repeat Num.zero n.

(** *** Broadcasting binary operations *)

(** The size two dimensions broadcast to. *)
Definition bdim (a b : nat) : result nat :=
  if (a =? b)%nat then Ok a
  else if (a =? 1)%nat then Ok b
  else if (b =? 1)%nat then Ok a
  else Raise RuntimeError.

(** Stretch a dimension of size 1 to size [n]. *)
Definition stretch {A} (d : A) (n : nat) (l : list A) : list A :=
  if (length l =? n)%nat then l else repeat (hd d l) n.

Definition binop2 {A} `{Num.t A} (f : A -> A -> A)
    (c1 : nat) (rows1 : list (list A)) (c2 : nat) (rows2 : list (list A))
    : result (tensor A) :=
  rbind (bdim (length rows1) (length rows2)) (fun n =>
  rbind (bdim c1 c2) (fun c =>
  Ok (T2 c (zip_with (fun x y => zip_with f (stretch Num.zero c x)
                                            (stretch Num.zero c y))
                     (stretch [] n rows1) (stretch [] n rows2))))).

Definition binop {A} `{Num.t A} (f : A -> A -> A) (a b : tensor A)
    : result (tensor A) :=
  match a, b with
  | T0 x, T0 y => Ok (T0 (f x y))
  | T0 x, T1 v => Ok (T1 (map (f x) v))
  | T1 u, T0 y => Ok (T1 (map (fun x => f x y) u))
  | T0 x, T2 c rows => Ok (T2 c (map (map (f x)) rows))
  | T2 c rows, T0 y => Ok (T2 c (map (map (fun x => f x y)) rows))
  | T1 u, T1 v =>
      rbind (bdim (length u) (length v)) (fun n =>
      Ok (T1 (zip_with f (stretch Num.zero n u) (stretch Num.zero n v))))
  | T1 u, T2 c rows => binop2 f (length u) [u] c rows
  | T2 c rows, T1 v => binop2 f c rows (length v) [v]
  | T2 c1 rows1, T2 c2 rows2 => binop2 f c1 rows1 c2 rows2
  end.

Definition tmul {A} `{Num.t A} : tensor A -> tensor A -> result (tensor A) :=
  binop Num.mul.
Definition tadd {A} `{Num.t A} : tensor A -> tensor A -> result (tensor A) :=
  binop Num.add.

(** *** Reductions *)

(** The sum of the rows, accumulated from the zero row in index order. *)
Definition sum_rows {A} `{Num.t A} (c : nat) (rows : list (list A)) : list A :=
  foldl (zip_with Num.add) (zeros c) rows.

(** [x.sum(0)] *)
Definition sum0 {A} `{Num.t A} (x : tensor A) : result (tensor A) :=
  match x with
  | T0 a => Ok (T0 a)
  | T1 v => Ok (T0 (vsum v))
  | T2 c rows => Ok (T1 (sum_rows c rows))
  end.

(** [x.sum(1)] *)
Definition sum1 {A} `{Num.t A} (x : tensor A) : result (tensor A) :=
  match x with
  | T2 c rows => Ok (T1 (map vsum rows))
  | _ => Raise IndexError
  end.

(** [x.shape[0]] *)
Definition shape0 {A} (x : tensor A) : result nat :=
  match shape x with
  | n :: _ => Ok n
  | [] => Raise IndexError
  end.

(** [x.expand(n, -1)] *)
Definition expand {A} (x : tensor A) (n : nat) : result (tensor A) :=
  match x with
  | T0 _ => Raise RuntimeError
  | T1 v => Ok (T2 (length v) (repeat v n))
  | T2 c rows =>
      if (length rows =? n)%nat then Ok (T2 c rows)
      else if (length rows =? 1)%nat then Ok (T2 c (repeat (hd [] rows) n))
      else Raise RuntimeError
  end.

(** *** Concatenation, activation, softmax *)

(** [torch.cat] skips rank-1 tensors of shape [(0,)], whatever the shape of
    the others. *)
Definition skipped {A} (x : tensor A) : bool :=
  match x with
  | T1 [] => true
  | _ => false
  end.

(** Concatenation of two tensors along the last axis. *)
Definition cat2 {A} (a b : tensor A) : result (tensor A) :=
  match a, b with
  | T1 u, T1 v => Ok (T1 (u ++ v))
  | T2 c1 rows1, T2 c2 rows2 =>
      if (length rows1 =? length rows2)%nat
      then Ok (T2 (c1 + c2) (zip_with app rows1 rows2))
      else Raise RuntimeError
  | _, _ => Raise RuntimeError
  end.

(** [torch.cat(xs, dim=-1)] on a non-empty list of tensors. *)
Definition cat {A} (xs : list (tensor A)) : result (tensor A) :=
  match xs with
  | [] => Raise ValueError
  | _ =>
      match List.filter (fun x => negb (skipped x)) xs with
      | [] => Ok (T1 [])
      | T0 _ :: _ => Raise RuntimeError
      | x :: rest => foldl (fun acc y => rbind acc (fun a => cat2 a y)) (Ok x) rest
      end
  end.

Definition tmap {A} (f : A -> A) (x : tensor A) : tensor A :=
  match x with
  | T0 a => T0 (f a)
  | T1 v => T1 (map f v)
  | T2 c rows => T2 c (map (map f) rows)
  end.

(** [F.relu] *)
Definition relu {A} `{Num.t A} : tensor A -> tensor A :=
  tmap (fun a => Num.max a Num.zero).

(** Softmax of a vector of logits: the largest logit is subtracted before
    the exponential, and each exponential is divided by their sum. *)
Definition softmax_vec {A} `{Num.t A} (v : list A) : list A :=
  match v with
  | [] => []
  | a :: v' =>
      let m := foldl Num.max a v' in
      let e := map (fun x => Num.exp (Num.sub x m)) v in
      map (fun x => Num.div x (vsum e)) e
  end.

(** [F.softmax(x, 0)]: along the first axis, so for a rank-2 tensor each
    column is normalised over the rows. *)
Definition softmax0 {A} `{Num.t A} (x : tensor A) : tensor A :=
  match x with
  | T0 a => T0 (hd a (softmax_vec [a]))
  | T1 v => T1 (softmax_vec v)
  | T2 c rows =>
      match rows with
      | [] => T2 c []
      | r :: rows' =>
          let m := foldl (zip_with Num.max) r rows' in
          let e := map (fun r => zip_with (fun x y => Num.exp (Num.sub x y)) r m)
                       rows in
          T2 c (map (fun r => zip_with Num.div r (sum_rows c e)) e)
      end
  end.

(** *** Drawn values *)

(** The next [n] values of the generator. *)
Definition draws {A} `{Num.t A} (n : nat) (g : generator) : list A * generator :=
  (map (fun i => Num.normal (g + i)%nat) (seq 0 n), (g + n)%nat).

(** A [rows × cols] matrix filled with the next values of the generator,
    row by row. *)
Definition draw_matrix {A} `{Num.t A} (rows cols : nat) (g : generator)
    : list (list A) * generator :=
  (map (fun i => map (fun j => Num.normal (g + i * cols + j)%nat) (seq 0 cols))
       (seq 0 rows),
   (g + rows * cols)%nat).

(** ** [nn.Linear] *)

Module Linear.

Record t (A : Type) := Build {
  in_features : nat;
  out_features : nat;
  weight : list (list A);     (* out_features rows of in_features entries *)
  bias : list A               (* out_features entries *)
}.
Arguments Build {A} in_features out_features weight bias.
Arguments in_features {A} t.
Arguments out_features {A} t.
Arguments weight {A} t.
Arguments bias {A} t.

(** One input row through the layer: [x W^T + b]. *)
Definition affine {A} `{Num.t A} (w : list (list A)) (b : list A) (x : list A)
    : list A :=
  zip_with (fun wi bi => Num.add (dot x wi) bi) w b.

Definition forward {A} `{Num.t A} (x : tensor A) : Meth.t (t A) (tensor A) :=
  n <- Meth.attr in_features ;;
  m <- Meth.attr out_features ;;
  w <- Meth.attr weight ;;
  b <- Meth.attr bias ;;
  match x with
  | T0 _ => Meth.raise RuntimeError
  | T1 v =>
      if (length v =? n)%nat then Meth.ret (T1 (affine w b v))
      else Meth.raise RuntimeError
  | T2 c rows =>
      if (c =? n)%nat then Meth.ret (T2 m (map (affine w b) rows))
      else Meth.raise RuntimeError
  end.

(** [nn.Linear(i, o)] with its default initialisation: weight and bias
    are both drawn. *)
Definition __init__ {A} `{Num.t A} (i o : nat) (g : generator)
    : t A * generator :=
  let (w, g) := draw_matrix o i g in
  let (b, g) := draws o g in
  (Build i o w b, g).

(** The shapes [nn.Linear(i, o)] allocates. *)
Definition wf {A} (l : t A) : bool :=
  (length (weight l) =? out_features l)%nat
  && rect (in_features l) (weight l)
  && (length (bias l) =? out_features l)%nat.

End Linear.

(** ** [nn.Embedding] *)

Module Embedding.

Record t (A : Type) := Build {
  num_embeddings : nat;
  embedding_dim : nat;
  weight : list (list A)      (* num_embeddings rows of embedding_dim entries *)
}.
Arguments Build {A} num_embeddings embedding_dim weight.
Arguments num_embeddings {A} t.
Arguments embedding_dim {A} t.
Arguments weight {A} t.

(** Gather the rows at the given indices. *)
Fixpoint gather {A} (w : list (list A)) (l : list nat) : result (list (list A)) :=
  match l with
  | [] => Ok []
  | i :: l' =>
      match w !! i with
      | Some r => rbind (gather w l') (fun rs => Ok (r :: rs))
      | None => Raise IndexError
      end
  end.

Definition forward {A} (i : index) : Meth.t (t A) (tensor A) :=
  d <- Meth.attr embedding_dim ;;
  w <- Meth.attr weight ;;
  match i with
  | IScalar i =>
      match w !! i with
      | Some r => Meth.ret (T1 r)
      | None => Meth.raise IndexError
      end
  | IVector l => rows <- Meth.pure (gather w l) ;; Meth.ret (T2 d rows)
  | IEmptyFloat => Meth.raise RuntimeError
  end.

(** [nn.Embedding(n, d)]: a drawn table. *)
Definition __init__ {A} `{Num.t A} (n d : nat) (g : generator)
    : t A * generator :=
  let (w, g) := draw_matrix n d g in
  (Build n d w, g).

Definition wf {A} (e : t A) : bool :=
  (length (weight e) =? num_embeddings e)%nat
  && rect (embedding_dim e) (weight e).

End Embedding.

(** ** [FeatureNet] *)

Module FeatureNet.

Record t (A : Type) := Build {
  l1 : Linear.t A;
  l2 : Linear.t A
}.
Arguments Build {A} l1 l2.
Arguments l1 {A} t.
Arguments l2 {A} t.

Definition set_l1 {A} (l : Linear.t A) (s : t A) : t A := Build l (l2 s).
Definition set_l2 {A} (l : Linear.t A) (s : t A) : t A := Build (l1 s) l.

(** [_kaiming_]: redraw the weights, zero the bias. *)
Definition _kaiming_ {A} `{Num.t A} (layer : Linear.t A) (g : generator)
    : Linear.t A * generator :=
  let (w, g) := draw_matrix (Linear.out_features layer)
                            (Linear.in_features layer) g in
  (Linear.Build (Linear.in_features layer) (Linear.out_features layer)
     w (zeros (Linear.out_features layer)), g).

Definition __init__ {A} `{Num.t A} (emb_dim feature_dim : nat) (g : generator)
    : t A * generator :=
  let (l1, g) := Linear.__init__ (emb_dim + feature_dim) emb_dim g in
  let (l2, g) := Linear.__init__ emb_dim emb_dim g in
  let (l1, g) := _kaiming_ l1 g in
  let (l2, g) := _kaiming_ l2 g in
  (Build l1 l2, g).

Definition forward {A} `{Num.t A} (user components : tensor A)
    : Meth.t (t A) (tensor A) :=
  user <- (if (1 <? length (shape components))%nat
           then n <- Meth.pure (shape0 components) ;; Meth.pure (expand user n)
           else Meth.ret user) ;;
  x <- Meth.pure (cat [user; components]) ;;
  x <- Meth.call l1 set_l1 (Linear.forward x) ;;
  x <- Meth.ret (relu x) ;;
  x <- Meth.call l2 set_l2 (Linear.forward x) ;;
  x <- Meth.ret (relu x) ;;
  Meth.ret x.

Definition wf {A} (emb_dim : nat) (s : t A) : bool :=
  Linear.wf (l1 s) && Linear.wf (l2 s)
  && (Linear.out_features (l1 s) =? emb_dim)%nat
  && (Linear.in_features (l2 s) =? emb_dim)%nat
  && (Linear.out_features (l2 s) =? emb_dim)%nat.

End FeatureNet.

(** ** [UserNet] *)

Module UserNet.

Record t (A : Type) := Build {
  emb_dim : nat;
  user_dict : gmap string nat;
  item_dict : gmap string nat;
  feats : option (FeatureNet.t A);
  user_embedding : Embedding.t A;
  item_embedding : Embedding.t A;
  l1 : Linear.t A;
  l2 : Linear.t A
}.
Arguments Build {A} emb_dim user_dict item_dict feats user_embedding
  item_embedding l1 l2.
Arguments emb_dim {A} t.
Arguments user_dict {A} t.
Arguments item_dict {A} t.
Arguments feats {A} t.
Arguments user_embedding {A} t.
Arguments item_embedding {A} t.
Arguments l1 {A} t.
Arguments l2 {A} t.

Definition set_feats {A} (f : option (FeatureNet.t A)) (s : t A) : t A :=
  Build (emb_dim s) (user_dict s) (item_dict s) f
        (user_embedding s) (item_embedding s) (l1 s) (l2 s).
Definition set_user_embedding {A} (e : Embedding.t A) (s : t A) : t A :=
  Build (emb_dim s) (user_dict s) (item_dict s) (feats s)
        e (item_embedding s) (l1 s) (l2 s).
Definition set_item_embedding {A} (e : Embedding.t A) (s : t A) : t A :=
  Build (emb_dim s) (user_dict s) (item_dict s) (feats s)
        (user_embedding s) e (l1 s) (l2 s).
Definition set_l1 {A} (l : Linear.t A) (s : t A) : t A :=
  Build (emb_dim s) (user_dict s) (item_dict s) (feats s)
        (user_embedding s) (item_embedding s) l (l2 s).
Definition set_l2 {A} (l : Linear.t A) (s : t A) : t A :=
  Build (emb_dim s) (user_dict s) (item_dict s) (feats s)
        (user_embedding s) (item_embedding s) (l1 s) l.

(** [enumerate(array)] *)
Definition enumerate {T} (array : list T) : list (nat * T) :=
  zip (seq 0 (length array)) array.

(** The loop body [res[v] = i]. *)
Definition setitem (res : gmap string nat) (iv : nat * string) : gmap string nat :=
  <[iv.2 := iv.1]> res.

Definition _create_dict (array : list string) : gmap string nat :=
  foldl setitem ∅ (enumerate array).

(** [_kaiming_]: redraw the weights, zero the bias. *)
Definition _kaiming_ {A} `{Num.t A} (layer : Linear.t A) (g : generator)
    : Linear.t A * generator :=
  let (w, g) := draw_matrix (Linear.out_features layer)
                            (Linear.in_features layer) g in
  (Linear.Build (Linear.in_features layer) (Linear.out_features layer)
     w (zeros (Linear.out_features layer)), g).

Definition __init__ {A} `{Num.t A} (users items : list string)
    (emb_dim feature_dim : nat) (g : generator) : t A * generator :=
  let num_users := length users in
  let num_items := length items in
  let user_dict := _create_dict users in
  let item_dict := _create_dict items in
  let (feats, g) := if (0 <? feature_dim)%nat
                    then let (f, g) := FeatureNet.__init__ emb_dim feature_dim g in
                         (Some f, g)
                    else (None, g) in
  let (user_embedding, g) := Embedding.__init__ num_users emb_dim g in
  let (item_embedding, g) := Embedding.__init__ num_items emb_dim g in
  let f := match feats with Some _ => 1%nat | None => 0%nat end in
  let (l1, g) := Linear.__init__ ((2 + f) * emb_dim) emb_dim g in
  let (l2, g) := Linear.__init__ emb_dim 1 g in
  let (l1, g) := _kaiming_ l1 g in
  (Build emb_dim user_dict item_dict feats user_embedding item_embedding l1 l2,
   g).

(** [d[key]] *)
Definition getitem (d : gmap string nat) (key : string) : result nat :=
  match d !! key with
  | Some i => Ok i
  | None => Raise (KeyError key)
  end.

(** [[d[item] for item in items]] *)
Fixpoint getitems (d : gmap string nat) (items : list string)
    : result (list nat) :=
  match items with
  | [] => Ok []
  | item :: rest =>
      rbind (getitem d item) (fun i =>
      rbind (getitems d rest) (fun l => Ok (i :: l)))
  end.

Definition _get_user {A} (user_id : string) : Meth.t (t A) index :=
  d <- Meth.attr user_dict ;;
  i <- Meth.pure (getitem d user_id) ;;
  Meth.ret (tensor_of_int i).

Definition _get_items {A} (items : list string) : Meth.t (t A) index :=
  d <- Meth.attr item_dict ;;
  l <- Meth.pure (getitems d items) ;;
  Meth.ret (tensor_of_ints l).

Definition get_items {A} (item_ids : list string) : Meth.t (t A) (tensor A) :=
  i <- _get_items item_ids ;;
  Meth.call item_embedding set_item_embedding (Embedding.forward i).

(** Call the [feats] sub-module; calling [None] is a [TypeError]. *)
Definition call_feats {A T} (m : Meth.t (FeatureNet.t A) T) : Meth.t (t A) T :=
  fun s g => match feats s with
             | Some f => Meth.call (fun _ => f) (fun f' => set_feats (Some f')) m s g
             | None => (Raise TypeError, s, g)
             end.

(** [forward] up to the concatenation (lines 90 to 100): the user row, the
    item rows, the components block and the concatenated input of the
    scoring layers. *)
Definition concat {A} `{Num.t A} (user_id : string) (item_ids : list string)
    (features : option (tensor A))
    : Meth.t (t A) (tensor A * tensor A * tensor A * tensor A) :=
  iu <- _get_user user_id ;;
  user <- Meth.call user_embedding set_user_embedding (Embedding.forward iu) ;;
  ii <- _get_items item_ids ;;
  items <- Meth.call item_embedding set_item_embedding (Embedding.forward ii) ;;
  fe <- Meth.attr feats ;;
  components <- match fe with
                | Some _ =>
                    ft <- Meth.pure (tensor_of_data features) ;;
                    call_feats (FeatureNet.forward user ft)
                | None => Meth.ret (T1 [])
                end ;;
  n <- Meth.pure (shape0 items) ;;
  usern <- Meth.pure (expand user n) ;;
  x <- Meth.pure (cat [usern; items; components]) ;;
  Meth.ret (user, items, components, x).

(** [forward] up to the softmax (lines 90 to 106): the user row, the item
    rows and the attention weights. *)
Definition attention {A} `{Num.t A} (user_id : string) (item_ids : list string)
    (features : option (tensor A))
    : Meth.t (t A) (tensor A * tensor A * tensor A) :=
  uicx <- concat user_id item_ids features ;;
  x <- Meth.call l1 set_l1 (Linear.forward uicx.2) ;;
  x <- Meth.ret (relu x) ;;
  x <- Meth.call l2 set_l2 (Linear.forward x) ;;
  x <- Meth.ret (softmax0 x) ;;
  Meth.ret (uicx.1.1.1, uicx.1.1.2, x).

(** [forward], the specification's [score_user]: [attention], then
    line 108. *)
Definition forward {A} `{Num.t A} (user_id : string) (item_ids : list string)
    (features : option (tensor A)) : Meth.t (t A) (tensor A) :=
  uix <- attention user_id item_ids features ;;
  p <- Meth.pure (tmul uix.1.2 uix.2) ;;
  s <- Meth.pure (sum0 p) ;;
  x <- Meth.pure (tadd uix.1.1 s) ;;
  Meth.ret x.

(** [score] is a static method: it takes no [self], and runs whatever the
    object at hand is. *)
Definition score {A S} `{Num.t A} (user items : tensor A) : Meth.t S (tensor A) :=
  n <- Meth.pure (shape0 items) ;;
  usern <- Meth.pure (expand user n) ;;
  p <- Meth.pure (tmul usern items) ;;
  Meth.pure (sum1 p).

(** [key in d] *)
Definition known (d : gmap string nat) (key : string) : bool :=
  match d !! key with
  | Some _ => true
  | None => false
  end.

(** The shapes and index ranges [__init__] establishes; training changes
    the entries of the tables and layers, not their shapes. *)
Definition wf {A} (s : t A) : bool :=
  let f := match feats s with Some _ => 1%nat | None => 0%nat end in
  Embedding.wf (user_embedding s) && Embedding.wf (item_embedding s)
  && (Embedding.embedding_dim (user_embedding s) =? emb_dim s)%nat
  && (Embedding.embedding_dim (item_embedding s) =? emb_dim s)%nat
  && bool_decide (map_Forall
       (fun _ i => (i < Embedding.num_embeddings (user_embedding s))%nat)
       (user_dict s))
  && bool_decide (map_Forall
       (fun _ i => (i < Embedding.num_embeddings (item_embedding s))%nat)
       (item_dict s))
  && Linear.wf (l1 s) && Linear.wf (l2 s)
  && (Linear.in_features (l1 s) =? (2 + f) * emb_dim s)%nat
  && (Linear.out_features (l1 s) =? emb_dim s)%nat
  && (Linear.in_features (l2 s) =? emb_dim s)%nat
  && (Linear.out_features (l2 s) =? 1)%nat
  && match feats s with
     | Some fn => FeatureNet.wf (emb_dim s) fn
     | None => true
     end.

End UserNet.

(** ** The quantities the specification names *)

(** [u + v] on vectors, and the vector [r] scaled by the weight [a]. *)
Definition vadd {A} `{Num.t A} (u v : list A) : list A := zip_with Num.add u v.
Definition vscale {A} `{Num.t A} (a : A) (r : list A) : list A :=
  map (fun x => Num.mul x a) r.

(** [Σ_n w_n · I_n] in [A^d], summed in the order of the items. *)
Definition weighted_sum {A} `{Num.t A} (d : nat) (w : list A)
    (rows : list (list A)) : list A :=
  sum_rows d (zip_with (fun r a => vscale a r) rows w).

(** The embedding row of a user id, and of an item id. *)
Definition user_row {A} (s : UserNet.t A) (user_id : string) : list A :=
  default [] (UserNet.user_dict s !! user_id
              ≫= fun i => Embedding.weight (UserNet.user_embedding s) !! i).

Definition item_row {A} (s : UserNet.t A) (item_id : string) : list A :=
  default [] (UserNet.item_dict s !! item_id
              ≫= fun i => Embedding.weight (UserNet.item_embedding s) !! i).

Definition item_rows {A} (s : UserNet.t A) (item_ids : list string)
    : list (list A) :=
  map (item_row s) item_ids.

(** layer1, then ReLU, on one concatenated row. *)
Definition hidden {A} `{Num.t A} (s : UserNet.t A) (x : list A) : list A :=
  map (fun a => Num.max a Num.zero)
      (Linear.affine (Linear.weight (UserNet.l1 s)) (Linear.bias (UserNet.l1 s)) x).

(** The attention logit of one item row [r] for the user row [u]:
    layer2 after ReLU after layer1 on [[u, r]]. *)
Definition logit {A} `{Num.t A} (s : UserNet.t A) (u r : list A) : A :=
  hd Num.zero
     (Linear.affine (Linear.weight (UserNet.l2 s)) (Linear.bias (UserNet.l2 s))
                    (hidden s (u ++ r))).

Definition logits {A} `{Num.t A} (s : UserNet.t A) (u : list A)
    (rows : list (list A)) : list A :=
  map (logit s u) rows.

(** The attention weights as the column tensor [forward] holds them. *)
Definition column {A} (w : list A) : tensor A := T2 1 (map (fun a => [a]) w).

(** The components block of [forward] (lines 93 to 96): what [feats]
    returns on the features, or [torch.tensor([])] without fusion. *)
Definition components_of {A} `{Num.t A} (s : UserNet.t A) (user : tensor A)
    (ft : option (tensor A)) : result (tensor A) :=
  match UserNet.feats s with
  | Some fn => rbind (tensor_of_data ft)
                 (fun t => Meth.value (FeatureNet.forward user t) fn)
  | None => Ok (T1 [])
  end.

(** [FeatureNet.forward] on one feature row [r] for the user row [u]:
    ReLU after layer2 after ReLU after layer1 on [[u, r]]. *)
Definition fuse {A} `{Num.t A} (fn : FeatureNet.t A) (u r : list A) : list A :=
  map (fun a => Num.max a Num.zero)
    (Linear.affine (Linear.weight (FeatureNet.l2 fn)) (Linear.bias (FeatureNet.l2 fn))
       (map (fun a => Num.max a Num.zero)
          (Linear.affine (Linear.weight (FeatureNet.l1 fn))
                         (Linear.bias (FeatureNet.l1 fn)) (u ++ r)))).

(** A well-formed model whose [feats] sub-module takes feature rows of
    width [fdim], as [__init__] builds it for [feature_dim = fdim > 0]. *)
Definition fused_wf {A} (s : UserNet.t A) (fdim : nat) : bool :=
  UserNet.wf s
  && match UserNet.feats s with
     | Some fn =>
         (Linear.in_features (FeatureNet.l1 fn) =? UserNet.emb_dim s + fdim)%nat
     | None => false
     end.

(** Same parameters outside the layers: dictionaries and embedding tables,
    and fusion present in both. *)
Definition same_lookup {A} (s s' : UserNet.t A) : Prop :=
  UserNet.user_dict s = UserNet.user_dict s'
  /\ UserNet.item_dict s = UserNet.item_dict s'
  /\ UserNet.user_embedding s = UserNet.user_embedding s'
  /\ UserNet.item_embedding s = UserNet.item_embedding s'
  /\ is_Some (UserNet.feats s) /\ is_Some (UserNet.feats s').

(** Lines 90 and 91 of [forward] as a function of the dictionaries and the
    embedding tables: the user row and the item rows, or the exception the
    lookups raise. *)
Definition lookups {A} (s : UserNet.t A) (user_id : string)
    (item_ids : list string) : result (tensor A * tensor A) :=
  rbind (UserNet.getitem (UserNet.user_dict s) user_id) (fun i =>
  rbind (Meth.value (Embedding.forward (tensor_of_int i)) (UserNet.user_embedding s))
        (fun user =>
  rbind (UserNet.getitems (UserNet.item_dict s) item_ids) (fun l =>
  rbind (Meth.value (Embedding.forward (tensor_of_ints l)) (UserNet.item_embedding s))
        (fun items =>
  Ok (user, items))))).


(** The calls a constructed model takes, and the model and the generator
    each one leaves. *)
Inductive call (A : Type) :=
| CallForward (user_id : string) (item_ids : list string)
              (features : option (tensor A))
| CallGetItems (item_ids : list string)
| CallGetUser (user_id : string)
| CallGetItemIndices (items : list string)
| CallScore (user items : tensor A).
Arguments CallForward {A} user_id item_ids features.
Arguments CallGetItems {A} item_ids.
Arguments CallGetUser {A} user_id.
Arguments CallGetItemIndices {A} items.
Arguments CallScore {A} user items.

Definition after {A} `{Num.t A} (c : call A) (w : UserNet.t A * generator)
    : UserNet.t A * generator :=
  match c with
  | CallForward user_id item_ids features =>
      let r := UserNet.forward user_id item_ids features w.1 w.2 in (r.1.2, r.2)
  | CallGetItems item_ids =>
      let r := UserNet.get_items item_ids w.1 w.2 in (r.1.2, r.2)
  | CallGetUser user_id =>
      let r := UserNet._get_user user_id w.1 w.2 in (r.1.2, r.2)
  | CallGetItemIndices items =>
      let r := UserNet._get_items items w.1 w.2 in (r.1.2, r.2)
  | CallScore user items =>
      let r := UserNet.score user items w.1 w.2 in (r.1.2, r.2)
  end.

Definition after_all {A} `{Num.t A} (cs : list (call A))
    (w : UserNet.t A * generator) : UserNet.t A * generator :=
  foldl (fun w c => after c w) w cs.

(** The first id of a list that the dictionary does not hold. *)
Definition first_unknown (d : gmap string nat) (ids : list string) : option string :=
  List.find (fun k => negb (UserNet.known d k)) ids.

(** What [wf] says, as propositions. *)
Record shapes {A} (s : UserNet.t A) : Prop := Shapes {
  sh_user_rows :
    forall k i, UserNet.user_dict s !! k = Some i ->
      exists u, Embedding.weight (UserNet.user_embedding s) !! i = Some u
                /\ length u = UserNet.emb_dim s;
  sh_item_rows :
    forall k i, UserNet.item_dict s !! k = Some i ->
      exists r, Embedding.weight (UserNet.item_embedding s) !! i = Some r
                /\ length r = UserNet.emb_dim s;
  sh_item_dim :
    Embedding.embedding_dim (UserNet.item_embedding s) = UserNet.emb_dim s;
  sh_l1_in :
    Linear.in_features (UserNet.l1 s)
    = ((2 + match UserNet.feats s with Some _ => 1 | None => 0 end)
       * UserNet.emb_dim s)%nat;
  sh_l1_out : Linear.out_features (UserNet.l1 s) = UserNet.emb_dim s;
  sh_l2_in : Linear.in_features (UserNet.l2 s) = UserNet.emb_dim s;
  sh_l2_out : Linear.out_features (UserNet.l2 s) = 1%nat;
  sh_l2_weight : length (Linear.weight (UserNet.l2 s)) = 1%nat;
  sh_l2_bias : length (Linear.bias (UserNet.l2 s)) = 1%nat
}.
Arguments sh_user_rows {A} s.
Arguments sh_item_rows {A} s.
Arguments sh_item_dim {A} s.
Arguments sh_l1_in {A} s.
Arguments sh_l1_out {A} s.
Arguments sh_l2_in {A} s.
Arguments sh_l2_out {A} s.
Arguments sh_l2_weight {A} s.
Arguments sh_l2_bias {A} s.

(** ** Sample models: the scenario of two users and three items *)

Module Sample.

(** In exact arithmetic, without and with feature fusion. *)
Definition net : UserNet.t R :=
  (UserNet.__init__ ["u1"; "u2"]%string ["a"; "b"; "c"]%string 2 0 O).1.

Definition fused : UserNet.t R :=
  (UserNet.__init__ ["u1"; "u2"]%string ["a"; "b"; "c"]%string 2 3 O).1.

(** In binary32, without and with feature fusion. *)
Definition net32 : UserNet.t spec_float :=
  (UserNet.__init__ ["u1"; "u2"]%string ["a"; "b"; "c"]%string 2 0 O).1.

Definition fused32 : UserNet.t spec_float :=
  (UserNet.__init__ ["u1"; "u2"]%string ["a"; "b"; "c"]%string 2 3 O).1.

(** Binary32 models with chosen parameters, of embedding dimension 1 and
    without fusion.  In [overflow32] the item's entry is [2^127] and
    layer1 multiplies it by 4. *)
Definition overflow32 : UserNet.t spec_float :=
  UserNet.Build 1
    (UserNet._create_dict ["u"]%string) (UserNet._create_dict ["a"]%string)
    None
    (Embedding.Build 1 1 [[F32.of_Z 1]])
    (Embedding.Build 1 1 [[F32.of_Z (2 ^ 127)]])
    (Linear.Build 2 1 [[F32.of_Z 0; F32.of_Z 4]] [F32.of_Z 0])
    (Linear.Build 1 1 [[F32.of_Z 1]] [F32.of_Z 0]).


End Sample.

(** * Properties *)

(** ** Methods that read *)

Section Reads.
Context {S : Type}.

Lemma reads_ret {T} (a : T) : Meth.reads (Meth.ret (S:=S) a).
Proof. intros s g. reflexivity. Qed.

Lemma reads_raise {T} e : Meth.reads (Meth.raise (S:=S) (T:=T) e).
Proof. intros s g. reflexivity. Qed.

Lemma reads_attr {T} (f : S -> T) : Meth.reads (Meth.attr f).
Proof. intros s g. reflexivity. Qed.

Lemma reads_pure {T} (r : result T) : Meth.reads (Meth.pure (S:=S) r).
Proof. intros s g. reflexivity. Qed.

Lemma reads_bind {T U} (m : Meth.t S T) (k : T -> Meth.t S U) :
  Meth.reads m -> (forall a, Meth.reads (k a)) ->
  Meth.reads (Meth.bind m k).
Proof.
  intros Hm Hk s g. unfold Meth.value, Meth.bind.
  rewrite (Hm s g), (Hm s O).
  destruct (Meth.value m s) as [a|e]; [|reflexivity].
  rewrite (Hk a s g), (Hk a s O). reflexivity.
Qed.

Lemma reads_call {S' T} (get : S -> S') (set : S' -> S -> S)
      (m : Meth.t S' T) :
  (forall s, set (get s) s = s) -> Meth.reads m ->
  Meth.reads (Meth.call get set m).
Proof.
  intros Hset Hm s g. unfold Meth.value, Meth.call.
  rewrite (Hm (get s) g), (Hm (get s) O), Hset. reflexivity.
Qed.

(** The value of a bind of reading methods. *)
Lemma value_bind {T U} (m : Meth.t S T) (k : T -> Meth.t S U) s :
  Meth.reads m ->
  Meth.value (Meth.bind m k) s
  = rbind (Meth.value m s) (fun a => Meth.value (k a) s).
Proof.
  intros Hm. unfold Meth.value at 1. unfold Meth.bind. rewrite (Hm s O).
  destruct (Meth.value m s); reflexivity.
Qed.

Lemma value_call {S' T} (get : S -> S') (set : S' -> S -> S)
      (m : Meth.t S' T) s :
  Meth.value (Meth.call get set m) s = Meth.value m (get s).
Proof.
  unfold Meth.value, Meth.call. destruct (m (get s) O) as [[r s'] g'].
  reflexivity.
Qed.

End Reads.

Create HintDb ro.
#[local] Hint Resolve reads_ret reads_raise reads_attr reads_pure : ro.

Ltac ro_step :=
  first [ solve [auto with ro]
        | apply reads_call; [intros []; reflexivity |]
        | apply reads_bind; [| intros ?] ].

Lemma Linear_forward_ro {A} `{Num.t A} (x : tensor A) :
  Meth.reads (Linear.forward x).
Proof.
  unfold Linear.forward. repeat ro_step.
  destruct x; repeat case_match; auto with ro.
Qed.

Lemma Embedding_forward_ro {A} i : Meth.reads (Embedding.forward (A:=A) i).
Proof.
  unfold Embedding.forward. repeat ro_step.
  destruct i; repeat case_match; repeat ro_step.
Qed.

#[local] Hint Resolve Linear_forward_ro Embedding_forward_ro : ro.

Lemma FeatureNet_forward_ro {A} `{Num.t A} (u c : tensor A) :
  Meth.reads (FeatureNet.forward u c).
Proof.
  unfold FeatureNet.forward. repeat ro_step.
  case_match; repeat ro_step.
Qed.

Lemma call_feats_ro {A T} (m : Meth.t (FeatureNet.t A) T) :
  Meth.reads m -> Meth.reads (UserNet.call_feats m).
Proof.
  intros Hm s g. unfold Meth.value, UserNet.call_feats, Meth.call.
  destruct (UserNet.feats s) as [f|] eqn:E; [|reflexivity].
  rewrite (Hm f g), (Hm f O). simpl.
  rewrite <- E. destruct s; reflexivity.
Qed.

Lemma _get_user_ro {A} uid : Meth.reads (UserNet._get_user (A:=A) uid).
Proof. unfold UserNet._get_user. repeat ro_step. Qed.

Lemma _get_items_ro {A} ids : Meth.reads (UserNet._get_items (A:=A) ids).
Proof. unfold UserNet._get_items. repeat ro_step. Qed.

#[local] Hint Resolve FeatureNet_forward_ro call_feats_ro _get_user_ro
  _get_items_ro : ro.

Lemma get_items_ro {A} ids : Meth.reads (UserNet.get_items (A:=A) ids).
Proof. unfold UserNet.get_items. repeat ro_step. Qed.

Lemma concat_ro {A} `{Num.t A} uid ids (ft : option (tensor A)) :
  Meth.reads (UserNet.concat uid ids ft).
Proof.
  unfold UserNet.concat. repeat ro_step.
  case_match; repeat ro_step.
Qed.

#[local] Hint Resolve concat_ro : ro.

Lemma attention_ro {A} `{Num.t A} uid ids (ft : option (tensor A)) :
  Meth.reads (UserNet.attention uid ids ft).
Proof. unfold UserNet.attention. repeat ro_step. Qed.

#[local] Hint Resolve get_items_ro attention_ro : ro.

Lemma forward_ro {A} `{Num.t A} uid ids (ft : option (tensor A)) :
  Meth.reads (UserNet.forward uid ids ft).
Proof. unfold UserNet.forward. repeat ro_step. Qed.

Lemma score_ro {A S} `{Num.t A} (user items : tensor A) :
  Meth.reads (UserNet.score (S:=S) user items).
Proof. unfold UserNet.score. repeat ro_step. Qed.

#[local] Hint Resolve forward_ro score_ro : ro.

(** ** Lists of rows *)

Lemma rect_Forall {A} c (rows : list (list A)) :
  rect c rows = true <-> Forall (fun r => length r = c) rows.
Proof.
  unfold rect. rewrite forallb_forall, Forall_forall. split; intros H r Hr.
  - apply Nat.eqb_eq, H, list_elem_of_In, Hr.
  - apply Nat.eqb_eq, H, list_elem_of_In, Hr.
Qed.

Lemma length_foldl_zip_with {A} (f : A -> A -> A) d z rows :
  length z = d ->
  Forall (fun r => length r = d) rows ->
  length (foldl (zip_with f) z rows) = d.
Proof.
  intros Hz Hrows. revert z Hz.
  induction Hrows as [|r rows Hr _ IH]; intros z Hz; simpl; [exact Hz|].
  apply IH. rewrite length_zip_with, Hz, Hr. apply Nat.min_id.
Qed.

Lemma length_zeros {A} `{Num.t A} n : length (zeros (A:=A) n) = n.
Proof. apply repeat_length. Qed.

Lemma length_sum_rows {A} `{Num.t A} d (rows : list (list A)) :
  Forall (fun r => length r = d) rows -> length (sum_rows d rows) = d.
Proof. apply length_foldl_zip_with, length_zeros. Qed.

Lemma foldl_singletons {A} (f : A -> A -> A) a l :
  foldl (zip_with f) [a] (map (fun x => [x]) l) = [foldl f a l].
Proof.
  revert a. induction l as [|x l IH]; intros a; simpl; [reflexivity|]. apply IH.
Qed.

Lemma zip_with_mul_repeat {A} `{Num.t A} a (r : list A) :
  zip_with Num.mul r (repeat a (length r)) = vscale a r.
Proof.
  unfold vscale. induction r as [|x r IH]; simpl; [reflexivity|].
  rewrite IH. reflexivity.
Qed.

Lemma stretch_same {A} (d : A) n l : length l = n -> stretch d n l = l.
Proof. intros <-. unfold stretch. rewrite Nat.eqb_refl. reflexivity. Qed.

Lemma stretch_singleton {A} (d a : A) n : stretch d n [a] = repeat a n.
Proof.
  unfold stretch. change (length [a]) with 1%nat.
  destruct (Nat.eqb_spec 1 n) as [<-|]; reflexivity.
Qed.

Lemma bdim_same n : bdim n n = Ok n.
Proof. unfold bdim. rewrite Nat.eqb_refl. reflexivity. Qed.

Lemma bdim_one n : bdim n 1 = Ok n.
Proof.
  unfold bdim. destruct (Nat.eqb_spec n 1); [congruence|]. reflexivity.
Qed.

Lemma zip_with_app_repeat {A} (u : list A) rows :
  zip_with app (repeat u (length rows)) rows = map (app u) rows.
Proof. induction rows as [|r rows IH]; simpl; congruence. Qed.

(** ** The tensor operations on the shapes [forward] meets *)

Lemma sum_rows_singletons {A} `{Num.t A} (l : list A) :
  sum_rows 1 (map (fun x => [x]) l) = [vsum l].
Proof. unfold sum_rows, vsum, zeros. cbn [repeat]. apply foldl_singletons. Qed.

Lemma softmax0_column {A} `{Num.t A} (v : list A) :
  softmax0 (column v) = column (softmax_vec v).
Proof.
  unfold column, softmax0, softmax_vec.
  destruct v as [|a v]; [reflexivity|].
  change (map (fun x => [x]) (a :: v)) with ([a] :: map (fun x : A => [x]) v).
  lazy beta iota zeta.
  rewrite foldl_singletons.
  change ([a] :: map (fun x => [x]) v) with (map (fun x : A => [x]) (a :: v)).
  generalize (foldl Num.max a v). intros m. generalize (a :: v). intros l.
  rewrite (map_map (fun x => [x])). cbn [zip_with].
  rewrite <- (map_map (fun x => Num.exp (Num.sub x m)) (fun y => [y])).
  rewrite sum_rows_singletons, !map_map. reflexivity.
Qed.

Lemma tmul_column {A} `{Num.t A} d (rows : list (list A)) w :
  Forall (fun r => length r = d) rows -> length w = length rows ->
  tmul (T2 d rows) (column w)
  = Ok (T2 d (zip_with (fun r a => vscale a r) rows w)).
Proof.
  intros Hrows Hlen. unfold tmul, column, binop, binop2.
  rewrite length_map, Hlen, bdim_same, bdim_one. simpl.
  rewrite !stretch_same by (rewrite ?length_map; congruence).
  do 2 f_equal. revert w Hlen.
  induction Hrows as [|r rows Hr _ IH]; intros [|a w] Hlen; simpl in *;
    try discriminate; [reflexivity|].
  rewrite stretch_same, stretch_singleton by assumption.
  rewrite <- Hr at 1. rewrite zip_with_mul_repeat. f_equal. apply IH. lia.
Qed.

Lemma length_scaled_rows {A} `{Num.t A} d (w : list A) rows :
  Forall (fun r => length r = d) rows ->
  Forall (fun r => length r = d) (zip_with (fun r a => vscale a r) rows w).
Proof.
  intros Hrows. revert w.
  induction Hrows as [|r rows Hr _ IH]; intros [|a w]; simpl;
    constructor; [unfold vscale; rewrite length_map; exact Hr | apply IH].
Qed.

Lemma length_weighted_sum {A} `{Num.t A} d (w : list A) rows :
  Forall (fun r => length r = d) rows ->
  length (weighted_sum d w rows) = d.
Proof.
  intros Hrows. unfold weighted_sum.
  apply length_sum_rows, length_scaled_rows, Hrows.
Qed.

Lemma tadd_vec {A} `{Num.t A} (u v : list A) :
  length u = length v -> tadd (T1 u) (T1 v) = Ok (T1 (vadd u v)).
Proof.
  intros Hl. unfold tadd, binop. rewrite Hl, bdim_same. simpl.
  rewrite !stretch_same by congruence. reflexivity.
Qed.

Lemma affine_singleton {A} `{Num.t A} w b (x : list A) :
  length w = 1%nat -> length b = 1%nat ->
  Linear.affine w b x = [hd Num.zero (Linear.affine w b x)].
Proof.
  destruct w as [|w0 [|]]; try discriminate.
  destruct b as [|b0 [|]]; try discriminate. reflexivity.
Qed.

(** ** Lookups *)

Lemma known_Some d k : UserNet.known d k = true <-> is_Some (d !! k).
Proof.
  unfold UserNet.known. destruct (d !! k); split; intros Hk;
    try reflexivity; try discriminate; eauto. destruct Hk; discriminate.
Qed.

Lemma getitem_known d k i : d !! k = Some i -> UserNet.getitem d k = Ok i.
Proof. unfold UserNet.getitem. intros ->. reflexivity. Qed.

Lemma getitem_unknown d k :
  UserNet.known d k = false -> UserNet.getitem d k = Raise (KeyError k).
Proof.
  unfold UserNet.known, UserNet.getitem. destruct (d !! k); [discriminate|].
  reflexivity.
Qed.

Lemma getitems_known d ids :
  forallb (UserNet.known d) ids = true ->
  UserNet.getitems d ids = Ok (map (fun k => default 0%nat (d !! k)) ids).
Proof.
  induction ids as [|k ids IH]; simpl; [reflexivity|].
  intros [Hk Hids]%andb_prop. apply known_Some in Hk as [i Hi].
  rewrite (getitem_known _ _ _ Hi), (IH Hids), Hi. reflexivity.
Qed.

Lemma getitems_unknown d ids k :
  first_unknown d ids = Some k ->
  UserNet.getitems d ids = Raise (KeyError k).
Proof.
  unfold first_unknown. induction ids as [|k0 ids IH]; simpl; [discriminate|].
  destruct (UserNet.known d k0) eqn:Hk; simpl.
  - intros Hf. apply known_Some in Hk as [i Hi].
    rewrite (getitem_known _ _ _ Hi), (IH Hf). reflexivity.
  - intros [= <-]. rewrite (getitem_unknown _ _ Hk). reflexivity.
Qed.

Lemma first_unknown_exists d ids :
  forallb (UserNet.known d) ids = false -> is_Some (first_unknown d ids).
Proof.
  unfold first_unknown. induction ids as [|k ids IH]; simpl; [discriminate|].
  destruct (UserNet.known d k); simpl; eauto.
Qed.

Lemma gather_known {A} (w : list (list A)) l :
  Forall (fun i => (i < length w)%nat) l ->
  Embedding.gather w l = Ok (map (fun i => default [] (w !! i)) l).
Proof.
  induction 1 as [|i l Hi _ IH]; simpl; [reflexivity|].
  apply lookup_lt_is_Some_2 in Hi as [r Hr]. rewrite Hr, IH. reflexivity.
Qed.

Lemma embedding_row {A} (e : Embedding.t A) (d : gmap string nat) k i :
  length (Embedding.weight e) = Embedding.num_embeddings e ->
  rect (Embedding.embedding_dim e) (Embedding.weight e) = true ->
  map_Forall (fun _ i => (i < Embedding.num_embeddings e)%nat) d ->
  d !! k = Some i ->
  exists r, Embedding.weight e !! i = Some r
            /\ length r = Embedding.embedding_dim e.
Proof.
  intros Hn Hr Hd Hk. apply rect_Forall in Hr.
  apply Hd in Hk. rewrite <- Hn in Hk.
  apply lookup_lt_is_Some_2 in Hk as [r Hi]. exists r. split; [exact Hi|].
  rewrite Forall_lookup in Hr. exact (Hr _ _ Hi).
Qed.

Lemma wf_shapes {A} (s : UserNet.t A) : UserNet.wf s = true -> shapes s.
Proof.
  unfold UserNet.wf. intros Hw.
  repeat (apply andb_prop in Hw as [Hw ?]).
  repeat match goal with
         | H : (_ =? _)%nat = true |- _ => apply Nat.eqb_eq in H
         | H : bool_decide _ = true |- _ => apply bool_decide_eq_true in H
         end.
  match goal with
  | H : Linear.wf (UserNet.l2 s) = true |- _ =>
      apply andb_prop in H as [[Hw2 _]%andb_prop Hb2];
      apply Nat.eqb_eq in Hw2, Hb2
  end.
  match goal with
  | H : Embedding.wf (UserNet.item_embedding s) = true |- _ =>
      apply andb_prop in H as [Hin Hir]; apply Nat.eqb_eq in Hin
  end.
  split; try assumption; try congruence.
  - intros k i Hk.
    destruct (embedding_row (UserNet.user_embedding s) _ k i
                ltac:(assumption) ltac:(assumption) ltac:(eassumption) Hk)
      as (u & Hu & Hlen). exists u. split; congruence.
  - intros k i Hk.
    destruct (embedding_row (UserNet.item_embedding s) _ k i
                ltac:(assumption) ltac:(assumption) ltac:(eassumption) Hk)
      as (u & Hu & Hlen). exists u. split; congruence.
Qed.

Lemma user_row_lookup {A} (s : UserNet.t A) uid :
  shapes s -> UserNet.known (UserNet.user_dict s) uid = true ->
  exists i, UserNet.user_dict s !! uid = Some i
            /\ Embedding.weight (UserNet.user_embedding s) !! i = Some (user_row s uid)
            /\ length (user_row s uid) = UserNet.emb_dim s.
Proof.
  intros Hs [i Hi]%known_Some. destruct (sh_user_rows s Hs _ _ Hi) as (u & Hu & Hlen).
  exists i. unfold user_row. rewrite Hi. simpl. rewrite Hu. simpl. auto.
Qed.

Lemma item_rows_lookup {A} (s : UserNet.t A) ids :
  shapes s -> forallb (UserNet.known (UserNet.item_dict s)) ids = true ->
  exists l, UserNet.getitems (UserNet.item_dict s) ids = Ok l
            /\ length l = length ids
            /\ Embedding.gather (Embedding.weight (UserNet.item_embedding s)) l
               = Ok (item_rows s ids)
            /\ Forall (fun r => length r = UserNet.emb_dim s) (item_rows s ids).
Proof.
  intros Hs Hk. eexists. split; [apply getitems_known, Hk|].
  split; [apply length_map|].
  assert (Forall (fun k => exists i r, UserNet.item_dict s !! k = Some i
            /\ Embedding.weight (UserNet.item_embedding s) !! i = Some r
            /\ length r = UserNet.emb_dim s) ids) as Hall.
  { apply Forall_forall. intros k Hin.
    rewrite forallb_forall in Hk. specialize (Hk k).
    rewrite <- list_elem_of_In in Hk. apply Hk, known_Some in Hin as [i Hi].
    destruct (sh_item_rows s Hs _ _ Hi) as (r & Hr & Hlen). eauto. }
  clear Hk. unfold item_rows, item_row.
  induction Hall as [|k ids (i & r & Hi & Hr & Hlen) _ [IH1 IH2]]; simpl.
  - split; [reflexivity | constructor].
  - rewrite Hi. simpl. rewrite Hr. simpl. rewrite IH1. simpl.
    split; [reflexivity | constructor; assumption].
Qed.

(** ** The methods as functions of the parameters *)

Lemma run_reads {S T} (m : Meth.t S T) s g :
  Meth.reads m -> m s g = (Meth.value m s, s, g).
Proof. intros Hm. apply Hm. Qed.

Lemma value_linear {A} `{Num.t A} (x : tensor A) l :
  Meth.value (Linear.forward x) l
  = match x with
    | T0 _ => Raise RuntimeError
    | T1 v =>
        if (length v =? Linear.in_features l)%nat
        then Ok (T1 (Linear.affine (Linear.weight l) (Linear.bias l) v))
        else Raise RuntimeError
    | T2 c rows =>
        if (c =? Linear.in_features l)%nat
        then Ok (T2 (Linear.out_features l)
                   (map (Linear.affine (Linear.weight l) (Linear.bias l)) rows))
        else Raise RuntimeError
    end.
Proof.
  unfold Meth.value, Linear.forward, Meth.bind, Meth.attr, Meth.ret, Meth.raise.
  destruct x as [a|v|c rows]; simpl; [reflexivity| |].
  - destruct (length v =? Linear.in_features l)%nat; reflexivity.
  - destruct (c =? Linear.in_features l)%nat; reflexivity.
Qed.

Lemma value_embedding {A} i (e : Embedding.t A) :
  Meth.value (Embedding.forward i) e
  = match i with
    | IScalar i =>
        match Embedding.weight e !! i with
        | Some r => Ok (T1 r)
        | None => Raise IndexError
        end
    | IVector l =>
        rbind (Embedding.gather (Embedding.weight e) l)
              (fun rows => Ok (T2 (Embedding.embedding_dim e) rows))
    | IEmptyFloat => Raise RuntimeError
    end.
Proof.
  unfold Meth.value, Embedding.forward, Meth.bind, Meth.attr, Meth.ret,
    Meth.raise, Meth.pure.
  destruct i as [i|l|]; simpl; [| |reflexivity].
  - destruct (Embedding.weight e !! i); reflexivity.
  - destruct (Embedding.gather (Embedding.weight e) l); reflexivity.
Qed.

Lemma value_get_user {A} (s : UserNet.t A) uid :
  Meth.value (UserNet._get_user uid) s
  = rbind (UserNet.getitem (UserNet.user_dict s) uid)
          (fun i => Ok (tensor_of_int i)).
Proof.
  unfold Meth.value, UserNet._get_user, Meth.bind, Meth.attr, Meth.pure,
    Meth.ret.
  destruct (UserNet.getitem (UserNet.user_dict s) uid); reflexivity.
Qed.

Lemma value_get_items_idx {A} (s : UserNet.t A) ids :
  Meth.value (UserNet._get_items ids) s
  = rbind (UserNet.getitems (UserNet.item_dict s) ids)
          (fun l => Ok (tensor_of_ints l)).
Proof.
  unfold Meth.value, UserNet._get_items, Meth.bind, Meth.attr, Meth.pure,
    Meth.ret.
  destruct (UserNet.getitems (UserNet.item_dict s) ids); reflexivity.
Qed.

Lemma value_get_items {A} (s : UserNet.t A) ids :
  Meth.value (UserNet.get_items ids) s
  = rbind (UserNet.getitems (UserNet.item_dict s) ids) (fun l =>
      Meth.value (Embedding.forward (tensor_of_ints l)) (UserNet.item_embedding s)).
Proof.
  unfold UserNet.get_items. rewrite value_bind by auto with ro.
  rewrite value_get_items_idx.
  destruct (UserNet.getitems (UserNet.item_dict s) ids); [|reflexivity].
  cbn [rbind]. apply value_call.
Qed.

Lemma value_call_feats {A T} (m : Meth.t (FeatureNet.t A) T) s fn :
  UserNet.feats s = Some fn ->
  Meth.value (UserNet.call_feats m) s = Meth.value m fn.
Proof.
  intros Hfn. unfold Meth.value, UserNet.call_feats, Meth.call. rewrite Hfn.
  destruct (m fn O) as [[r s'] g']. reflexivity.
Qed.

(** [FeatureNet.forward] as a function of the two layers. *)
Lemma value_feature_forward {A} `{Num.t A} (user comps : tensor A) fn :
  Meth.value (FeatureNet.forward user comps) fn
  = rbind (if (1 <? length (shape comps))%nat
           then rbind (shape0 comps) (expand user) else Ok user) (fun user' =>
    rbind (cat [user'; comps]) (fun x =>
    rbind (Meth.value (Linear.forward x) (FeatureNet.l1 fn)) (fun h =>
    rbind (Meth.value (Linear.forward (relu h)) (FeatureNet.l2 fn)) (fun z =>
    Ok (relu z))))).
Proof.
  unfold FeatureNet.forward.
  rewrite value_bind by (case_match; repeat ro_step).
  assert (Meth.value (if (1 <? length (shape comps))%nat
                      then n <- Meth.pure (shape0 comps);;
                           Meth.pure (expand user n)
                      else Meth.ret user) fn
          = (if (1 <? length (shape comps))%nat
             then rbind (shape0 comps) (expand user) else Ok user)) as ->.
  { destruct (1 <? length (shape comps))%nat; [|reflexivity].
    unfold Meth.value, Meth.bind, Meth.pure.
    destruct (shape0 comps); reflexivity. }
  destruct (if (1 <? length (shape comps))%nat then _ else _) as [user'|e];
    [|reflexivity].
  cbn [rbind]. rewrite value_bind by auto with ro.
  change (Meth.value (Meth.pure (cat [user'; comps])) fn)
    with (cat [user'; comps]).
  destruct (cat [user'; comps]) as [x|e]; [|reflexivity].
  cbn [rbind]. rewrite value_bind by repeat ro_step. rewrite value_call.
  destruct (Meth.value (Linear.forward x) (FeatureNet.l1 fn)) as [h|e];
    [|reflexivity].
  cbn [rbind]. rewrite value_bind by auto with ro.
  change (Meth.value (Meth.ret (relu h)) fn) with (Ok (relu h)).
  cbn [rbind]. rewrite value_bind by repeat ro_step. rewrite value_call.
  destruct (Meth.value (Linear.forward (relu h)) (FeatureNet.l2 fn)) as [z|e];
    reflexivity.
Qed.

Lemma value_concat {A} `{Num.t A} (s : UserNet.t A) uid ids ft :
  Meth.value (UserNet.concat uid ids ft) s
  = rbind (lookups s uid ids) (fun ui =>
    rbind (components_of s ui.1 ft) (fun comps =>
    rbind (shape0 ui.2) (fun n =>
    rbind (expand ui.1 n) (fun usern =>
    rbind (cat [usern; ui.2; comps]) (fun x =>
    Ok (ui.1, ui.2, comps, x)))))).
Proof.
  unfold UserNet.concat, lookups.
  rewrite value_bind by auto with ro. rewrite value_get_user.
  destruct (UserNet.getitem (UserNet.user_dict s) uid) as [i|e]; [|reflexivity].
  cbn [rbind]. rewrite value_bind by repeat ro_step. rewrite value_call.
  destruct (Meth.value (Embedding.forward (tensor_of_int i))
              (UserNet.user_embedding s)) as [user|e]; [|reflexivity].
  cbn [rbind]. rewrite value_bind by auto with ro. rewrite value_get_items_idx.
  destruct (UserNet.getitems (UserNet.item_dict s) ids) as [l|e]; [|reflexivity].
  cbn [rbind]. rewrite value_bind by repeat ro_step. rewrite value_call.
  destruct (Meth.value (Embedding.forward (tensor_of_ints l))
              (UserNet.item_embedding s)) as [items|e]; [|reflexivity].
  cbn [rbind fst snd]. rewrite value_bind by auto with ro.
  change (Meth.value (Meth.attr UserNet.feats) s) with (Ok (UserNet.feats s)).
  cbn [rbind]. rewrite value_bind by (case_match; repeat ro_step).
  assert (Meth.value
            match UserNet.feats s with
            | Some _ =>
                ft0 <- Meth.pure (tensor_of_data ft);;
                UserNet.call_feats (FeatureNet.forward user ft0)
            | None => Meth.ret (T1 [])
            end s = components_of s user ft) as ->.
  { unfold components_of.
    destruct (UserNet.feats s) as [fn|] eqn:Hfn; [|reflexivity].
    rewrite value_bind by auto with ro.
    change (Meth.value (Meth.pure (tensor_of_data ft)) s) with (tensor_of_data ft).
    destruct (tensor_of_data ft) as [t|e]; [|reflexivity].
    cbn [rbind]. apply value_call_feats, Hfn. }
  destruct (components_of s user ft) as [comps|e]; [|reflexivity].
  cbn [rbind]. unfold Meth.value, Meth.bind, Meth.pure, Meth.ret.
  destruct (shape0 items) as [n|e]; [|reflexivity]. cbn [rbind].
  destruct (expand user n) as [usern|e]; [|reflexivity]. cbn [rbind].
  destruct (cat [usern; items; comps]) as [x|e]; reflexivity.
Qed.

Lemma value_attention {A} `{Num.t A} (s : UserNet.t A) uid ids ft :
  Meth.value (UserNet.attention uid ids ft) s
  = rbind (Meth.value (UserNet.concat uid ids ft) s) (fun uicx =>
    rbind (Meth.value (Linear.forward uicx.2) (UserNet.l1 s)) (fun h =>
    rbind (Meth.value (Linear.forward (relu h)) (UserNet.l2 s)) (fun z =>
    Ok (uicx.1.1.1, uicx.1.1.2, softmax0 z)))).
Proof.
  unfold UserNet.attention. rewrite value_bind by auto with ro.
  destruct (Meth.value (UserNet.concat uid ids ft) s) as [uicx|e]; [|reflexivity].
  cbn [rbind]. rewrite value_bind by repeat ro_step. rewrite value_call.
  destruct (Meth.value (Linear.forward uicx.2) (UserNet.l1 s)) as [h|e];
    [|reflexivity].
  cbn [rbind]. rewrite value_bind by auto with ro.
  change (Meth.value (Meth.ret (relu h)) s) with (Ok (relu h)).
  cbn [rbind]. rewrite value_bind by repeat ro_step. rewrite value_call.
  destruct (Meth.value (Linear.forward (relu h)) (UserNet.l2 s)) as [z|e];
    reflexivity.
Qed.

Lemma value_forward {A} `{Num.t A} (s : UserNet.t A) uid ids ft :
  Meth.value (UserNet.forward uid ids ft) s
  = rbind (Meth.value (UserNet.attention uid ids ft) s) (fun uix =>
    rbind (tmul uix.1.2 uix.2) (fun p =>
    rbind (sum0 p) (fun sm =>
    tadd uix.1.1 sm))).
Proof.
  unfold UserNet.forward. rewrite value_bind by auto with ro.
  destruct (Meth.value (UserNet.attention uid ids ft) s) as [uix|e];
    [|reflexivity].
  cbn [rbind]. unfold Meth.value, Meth.bind, Meth.pure, Meth.ret.
  destruct (tmul uix.1.2 uix.2) as [p|e]; [|reflexivity]. cbn [rbind].
  destruct (sum0 p) as [sm|e]; [|reflexivity]. cbn [rbind].
  destruct (tadd uix.1.1 sm); reflexivity.
Qed.


(** ** Lookups that succeed, lookups that fail *)

Lemma lookups_ok {A} (s : UserNet.t A) uid ids :
  shapes s ->
  UserNet.known (UserNet.user_dict s) uid = true ->
  forallb (UserNet.known (UserNet.item_dict s)) ids = true ->
  ids <> [] ->
  lookups s uid ids
  = Ok (T1 (user_row s uid), T2 (UserNet.emb_dim s) (item_rows s ids)).
Proof.
  intros Hs Hu Hids Hne.
  destruct (user_row_lookup s uid Hs Hu) as (i & Hi & Hrow & _).
  destruct (item_rows_lookup s ids Hs Hids) as (l & Hl & Hlen & Hg & _).
  unfold lookups. rewrite (getitem_known _ _ _ Hi), Hl. cbn [rbind].
  rewrite !value_embedding. cbn [tensor_of_int]. rewrite Hrow. cbn [rbind].
  destruct l as [|j l]; [destruct ids; [congruence | discriminate]|].
  cbn [tensor_of_ints]. rewrite Hg. cbn [rbind].
  rewrite (sh_item_dim s Hs). reflexivity.
Qed.

Lemma lookups_unknown_user {A} (s : UserNet.t A) uid ids :
  UserNet.known (UserNet.user_dict s) uid = false ->
  lookups s uid ids = Raise (KeyError uid).
Proof.
  intros Hu. unfold lookups. rewrite (getitem_unknown _ _ Hu). reflexivity.
Qed.

Lemma lookups_unknown_item {A} (s : UserNet.t A) uid ids k :
  shapes s ->
  UserNet.known (UserNet.user_dict s) uid = true ->
  first_unknown (UserNet.item_dict s) ids = Some k ->
  lookups s uid ids = Raise (KeyError k).
Proof.
  intros Hs Hu Hk.
  destruct (user_row_lookup s uid Hs Hu) as (i & Hi & Hrow & _).
  unfold lookups. rewrite (getitem_known _ _ _ Hi). cbn [rbind].
  rewrite value_embedding. cbn [tensor_of_int]. rewrite Hrow. cbn [rbind].
  rewrite (getitems_unknown _ _ _ Hk). reflexivity.
Qed.

Lemma value_concat_raise {A} `{Num.t A} (s : UserNet.t A) uid ids ft e :
  lookups s uid ids = Raise e ->
  Meth.value (UserNet.concat uid ids ft) s = Raise e.
Proof. intros Hl. rewrite value_concat, Hl. reflexivity. Qed.

Lemma value_forward_raise {A} `{Num.t A} (s : UserNet.t A) uid ids ft e :
  Meth.value (UserNet.concat uid ids ft) s = Raise e ->
  Meth.value (UserNet.forward uid ids ft) s = Raise e.
Proof. intros Hc. rewrite value_forward, value_attention, Hc. reflexivity. Qed.

(** ** [forward] in closed form *)

Lemma softmax_vec_length {A} `{Num.t A} (v : list A) :
  length (softmax_vec v) = length v.
Proof.
  unfold softmax_vec. destruct v; [reflexivity|]. rewrite !length_map.
  reflexivity.
Qed.


Lemma cat_user_items {A} d (u : list A) rows :
  cat [T2 d (repeat u (length rows)); T2 d rows]
  = Ok (T2 (2 * d) (map (app u) rows)).
Proof.
  unfold cat. simpl. rewrite repeat_length, Nat.eqb_refl.
  rewrite zip_with_app_repeat, Nat.add_0_r. reflexivity.
Qed.

Lemma zip_with_app_nil {A} (rows : list (list A)) :
  zip_with app rows (repeat [] (length rows)) = rows.
Proof.
  induction rows as [|r rows IH]; simpl; [reflexivity|].
  rewrite IH, app_nil_r. reflexivity.
Qed.

Lemma value_concat_closed {A} `{Num.t A} (s : UserNet.t A) uid ids ft :
  shapes s -> UserNet.feats s = None ->
  UserNet.known (UserNet.user_dict s) uid = true ->
  forallb (UserNet.known (UserNet.item_dict s)) ids = true ->
  ids <> [] ->
  Meth.value (UserNet.concat uid ids ft) s
  = Ok (T1 (user_row s uid), T2 (UserNet.emb_dim s) (item_rows s ids), T1 [],
        T2 (2 * UserNet.emb_dim s)
           (map (app (user_row s uid)) (item_rows s ids))).
Proof.
  intros Hs Hfe Hu Hids Hne.
  destruct (user_row_lookup s uid Hs Hu) as (i & _ & _ & Hulen).
  rewrite value_concat, (lookups_ok s uid ids Hs Hu Hids Hne).
  unfold components_of. rewrite Hfe. cbn [rbind fst snd shape0 shape expand].
  rewrite Hulen.
  change (cat [T2 (UserNet.emb_dim s)
                 (repeat (user_row s uid) (length (item_rows s ids)));
               T2 (UserNet.emb_dim s) (item_rows s ids); T1 []])
    with (cat [T2 (UserNet.emb_dim s)
                 (repeat (user_row s uid) (length (item_rows s ids)));
               T2 (UserNet.emb_dim s) (item_rows s ids)]).
  rewrite cat_user_items. reflexivity.
Qed.

(** The attention weights when the concatenated input has the rows
    [[u, y]] for [y] in [ys]. *)
Lemma value_attention_rows {A} `{Num.t A} (s : UserNet.t A) uid ids ft
      u items comps ys :
  shapes s ->
  Meth.value (UserNet.concat uid ids ft) s
  = Ok (T1 u, items, comps,
        T2 (Linear.in_features (UserNet.l1 s)) (map (app u) ys)) ->
  Meth.value (UserNet.attention uid ids ft) s
  = Ok (T1 u, items, column (softmax_vec (logits s u ys))).
Proof.
  intros Hs Hc. rewrite value_attention, Hc. cbn [rbind fst snd].
  rewrite value_linear, Nat.eqb_refl. cbn [rbind relu tmap].
  rewrite value_linear, (sh_l1_out s Hs), (sh_l2_in s Hs), Nat.eqb_refl.
  cbn [rbind]. rewrite (sh_l2_out s Hs).
  do 2 f_equal. rewrite <- softmax0_column. unfold column, logits, logit, hidden.
  do 2 f_equal. rewrite !map_map. apply map_ext. intros r.
  apply affine_singleton; [apply (sh_l2_weight s Hs) | apply (sh_l2_bias s Hs)].
Qed.

Lemma value_forward_pool {A} `{Num.t A} (s : UserNet.t A) uid ids ft d u rows w :
  Meth.value (UserNet.attention uid ids ft) s
  = Ok (T1 u, T2 d rows, column w) ->
  length u = d ->
  Forall (fun r => length r = d) rows ->
  length w = length rows ->
  Meth.value (UserNet.forward uid ids ft) s
  = Ok (T1 (vadd u (weighted_sum d w rows))).
Proof.
  intros Ha Hu Hrect Hw. rewrite value_forward, Ha. cbn [rbind fst snd].
  rewrite tmul_column by assumption. cbn [rbind sum0].
  rewrite tadd_vec; [reflexivity|].
  rewrite length_sum_rows; [exact Hu|].
  apply length_scaled_rows, Hrect.
Qed.

Lemma value_attention_closed {A} `{Num.t A} (s : UserNet.t A) uid ids ft :
  shapes s -> UserNet.feats s = None ->
  UserNet.known (UserNet.user_dict s) uid = true ->
  forallb (UserNet.known (UserNet.item_dict s)) ids = true ->
  ids <> [] ->
  Meth.value (UserNet.attention uid ids ft) s
  = Ok (T1 (user_row s uid), T2 (UserNet.emb_dim s) (item_rows s ids),
        column (softmax_vec (logits s (user_row s uid) (item_rows s ids)))).
Proof.
  intros Hs Hfe Hu Hids Hne.
  apply (value_attention_rows s uid ids ft _ _ (T1 [])); [exact Hs|].
  rewrite (value_concat_closed s uid ids ft Hs Hfe Hu Hids Hne).
  rewrite (sh_l1_in s Hs), Hfe. reflexivity.
Qed.

Lemma value_forward_closed {A} `{Num.t A} (s : UserNet.t A) uid ids ft :
  shapes s -> UserNet.feats s = None ->
  UserNet.known (UserNet.user_dict s) uid = true ->
  forallb (UserNet.known (UserNet.item_dict s)) ids = true ->
  ids <> [] ->
  Meth.value (UserNet.forward uid ids ft) s
  = Ok (T1 (vadd (user_row s uid)
              (weighted_sum (UserNet.emb_dim s)
                 (softmax_vec (logits s (user_row s uid) (item_rows s ids)))
                 (item_rows s ids)))).
Proof.
  intros Hs Hfe Hu Hids Hne.
  destruct (user_row_lookup s uid Hs Hu) as (i & _ & _ & Hulen).
  destruct (item_rows_lookup s ids Hs Hids) as (l & _ & _ & _ & Hrect).
  apply value_forward_pool.
  - apply value_attention_closed; assumption.
  - exact Hulen.
  - exact Hrect.
  - unfold logits. rewrite softmax_vec_length, length_map. reflexivity.
Qed.

(** ** Unknown identities and missing features *)

(** C4: [forward] raises [KeyError] for a user id that the user dictionary
    does not hold, and, as [get_items] does, for an item list with an id
    that the item dictionary does not hold (the first such id, once the
    user is found); nothing is returned in its place.  Lookups of known
    ids succeed. *)
Theorem unknown_identity_raises {A} `{Num.t A} (s : UserNet.t A) uid ids ft g :
  (UserNet.known (UserNet.user_dict s) uid = false ->
   UserNet.forward uid ids ft s g = (Raise (KeyError uid), s, g))
  /\ (UserNet.wf s = true ->
      forallb (UserNet.known (UserNet.item_dict s)) ids = false ->
      exists k,
        UserNet.forward uid ids ft s g = (Raise (KeyError k), s, g)
        /\ (UserNet.known (UserNet.user_dict s) uid = false -> k = uid)
        /\ (UserNet.known (UserNet.user_dict s) uid = true ->
            first_unknown (UserNet.item_dict s) ids = Some k))
  /\ (forallb (UserNet.known (UserNet.item_dict s)) ids = false ->
      exists k,
        first_unknown (UserNet.item_dict s) ids = Some k
        /\ UserNet.get_items ids s g = (Raise (KeyError k), s, g))
  /\ (forall i, UserNet.user_dict s !! uid = Some i ->
      UserNet._get_user uid s g = (Ok (IScalar i), s, g))
  /\ (forallb (UserNet.known (UserNet.item_dict s)) ids = true ->
      exists l,
        UserNet._get_items ids s g = (Ok (tensor_of_ints l), s, g)
        /\ Forall2 (fun k i => UserNet.item_dict s !! k = Some i) ids l)
  /\ (UserNet.wf s = true ->
      forallb (UserNet.known (UserNet.item_dict s)) ids = true ->
      ids <> [] ->
      UserNet.get_items ids s g
      = (Ok (T2 (UserNet.emb_dim s) (item_rows s ids)), s, g)).
Proof.
  repeat split.
  - intros Hu. rewrite (run_reads _ s g (forward_ro uid ids ft)).
    rewrite value_forward_raise with (e := KeyError uid); [reflexivity|].
    apply value_concat_raise, lookups_unknown_user, Hu.
  - intros Hwf Hids. apply wf_shapes in Hwf.
    destruct (first_unknown_exists _ _ Hids) as [k Hk].
    rewrite (run_reads _ s g (forward_ro uid ids ft)).
    destruct (UserNet.known (UserNet.user_dict s) uid) eqn:Hu.
    + exists k. split; [|split; [discriminate | intros _; exact Hk]].
      rewrite value_forward_raise with (e := KeyError k); [reflexivity|].
      apply value_concat_raise, lookups_unknown_item; assumption.
    + exists uid. split; [|split; [reflexivity | discriminate]].
      rewrite value_forward_raise with (e := KeyError uid); [reflexivity|].
      apply value_concat_raise, lookups_unknown_user, Hu.
  - intros Hids. destruct (first_unknown_exists _ _ Hids) as [k Hk].
    exists k. split; [exact Hk|].
    rewrite (run_reads _ s g (get_items_ro ids)), value_get_items,
      (getitems_unknown _ _ _ Hk). reflexivity.
  - intros i Hi. rewrite (run_reads _ s g (_get_user_ro uid)), value_get_user,
      (getitem_known _ _ _ Hi). reflexivity.
  - intros Hids. eexists. split.
    + rewrite (run_reads _ s g (_get_items_ro ids)), value_get_items_idx,
        (getitems_known _ _ Hids). reflexivity.
    + apply Forall2_fmap_r, Forall_Forall2_diag, Forall_forall.
      intros k Hin. rewrite forallb_forall in Hids.
      apply list_elem_of_In, Hids, known_Some in Hin as [i Hi].
      simpl. rewrite Hi. reflexivity.
  - intros Hwf Hids Hne. apply wf_shapes in Hwf.
    destruct (item_rows_lookup s ids Hwf Hids) as (l & Hl & Hlen & Hg & _).
    rewrite (run_reads _ s g (get_items_ro ids)), value_get_items, Hl.
    cbn [rbind]. rewrite value_embedding.
    destruct l as [|j l]; [destruct ids; [congruence | discriminate]|].
    cbn [tensor_of_ints]. rewrite Hg. cbn [rbind].
    rewrite (sh_item_dim s Hwf). reflexivity.
Qed.

Lemma unknown_identity_raises_witness :
  UserNet.forward "u3" ["a"]%string None Sample.net32 O
  = (Raise (KeyError "u3"), Sample.net32, O)
  /\ (exists k, UserNet.forward "u1" ["a"; "z"; "y"]%string None Sample.net32 O
                = (Raise (KeyError k), Sample.net32, O)
                /\ first_unknown (UserNet.item_dict Sample.net32)
                     ["a"; "z"; "y"]%string = Some k)
  /\ UserNet._get_user "u2" Sample.net32 O = (Ok (IScalar 1), Sample.net32, O).
Proof.
  split; [|split].
  - apply (unknown_identity_raises Sample.net32 "u3" ["a"]%string None O).
    reflexivity.
  - destruct (unknown_identity_raises Sample.net32 "u1" ["a"; "z"; "y"]%string
                None O) as (_ & Hitem & _).
    destruct (Hitem ltac:(vm_compute; reflexivity) ltac:(reflexivity))
      as (k & Hf & _ & Hk).
    exists k. split; [exact Hf | apply Hk; reflexivity].
  - apply (unknown_identity_raises Sample.net32 "u2" []%string None O).
    reflexivity.
Defined.

(** C6: with fusion enabled, [forward] called without features never
    returns a value: it raises.  Once the user and the items are looked
    up, the exception is the [TypeError] of the conversion of the missing
    features, raised before [FeatureNet] and the scoring layers run: the
    outcome is the same whatever the layers hold. *)
Theorem missing_features_fail_fast {A} `{Num.t A} (s : UserNet.t A) uid ids g :
  is_Some (UserNet.feats s) ->
  (exists e, UserNet.forward uid ids None s g = (Raise e, s, g))
  /\ (UserNet.wf s = true ->
      UserNet.known (UserNet.user_dict s) uid = true ->
      forallb (UserNet.known (UserNet.item_dict s)) ids = true ->
      ids <> [] ->
      UserNet.forward uid ids None s g = (Raise TypeError, s, g))
  /\ (forall s' g', same_lookup s s' ->
      (UserNet.forward uid ids None s' g').1.1
      = (UserNet.forward uid ids None s g).1.1).
Proof.
  intros Hfe.
  assert (forall s0 g0, is_Some (UserNet.feats s0) ->
            UserNet.forward uid ids None s0 g0
            = (rbind (lookups s0 uid ids) (fun _ => Raise TypeError), s0, g0))
    as Hrun.
  { intros s0 g0 [fn Hfn]. rewrite (run_reads _ s0 g0 (forward_ro uid ids None)).
    do 2 f_equal. destruct (lookups s0 uid ids) as [ui|e] eqn:E.
    - apply value_forward_raise. rewrite value_concat, E. cbn [rbind].
      unfold components_of. rewrite Hfn. reflexivity.
    - apply value_forward_raise, value_concat_raise, E. }
  split; [|split].
  - rewrite (Hrun s g Hfe). destruct (lookups s uid ids); simpl; eauto.
  - intros Hwf Hu Hids Hne. apply wf_shapes in Hwf.
    rewrite (Hrun s g Hfe), lookups_ok by assumption. reflexivity.
  - intros s' g' (Hud & Hid & Hue & Hie & _ & Hfe').
    rewrite (Hrun s g Hfe), (Hrun s' g' Hfe'). simpl.
    unfold lookups. rewrite Hud, Hid, Hue, Hie. reflexivity.
Qed.

Lemma missing_features_fail_fast_witness :
  UserNet.forward "u1" ["a"; "b"]%string None Sample.fused32 O
  = (Raise TypeError, Sample.fused32, O).
Proof.
  apply (missing_features_fail_fast Sample.fused32 "u1" ["a"; "b"]%string O);
    [vm_compute; eauto | vm_compute; reflexivity | reflexivity | reflexivity
    | discriminate].
Defined.

(** ** The identity dictionaries *)

Lemma create_from_notin (array : list string) k m v :
  v ∉ array ->
  foldl UserNet.setitem m (zip (seq k (length array)) array) !! v = m !! v.
Proof.
  revert k m. induction array as [|x array IH]; intros k m Hv; [reflexivity|].
  apply not_elem_of_cons in Hv as [Hx Hv]. simpl.
  rewrite IH by exact Hv. unfold UserNet.setitem. simpl.
  apply lookup_insert_ne. congruence.
Qed.

Lemma create_from_lookup (array : list string) k m i v :
  NoDup array -> array !! i = Some v ->
  foldl UserNet.setitem m (zip (seq k (length array)) array) !! v
  = Some (k + i)%nat.
Proof.
  revert k m i. induction array as [|x array IH]; intros k m i Hnd Hi;
    [discriminate|].
  apply NoDup_cons in Hnd as [Hx Hnd]. simpl. destruct i as [|i].
  - injection Hi as ->. rewrite create_from_notin by exact Hx.
    unfold UserNet.setitem. simpl. rewrite lookup_insert_eq, Nat.add_0_r.
    reflexivity.
  - rewrite (IH (S k) _ i Hnd Hi). f_equal. lia.
Qed.

Lemma create_dict_lookup (array : list string) v i :
  NoDup array ->
  UserNet._create_dict array !! v = Some i <-> array !! i = Some v.
Proof.
  intros Hnd. unfold UserNet._create_dict, UserNet.enumerate. split.
  - intros Hd. destruct (decide (v ∈ array)) as [Hin|Hout].
    + apply list_elem_of_lookup in Hin as [j Hj].
      rewrite (create_from_lookup array 0 ∅ j v Hnd Hj) in Hd.
      injection Hd as <-. exact Hj.
    + rewrite create_from_notin in Hd by exact Hout. discriminate.
  - intros Hi. apply (create_from_lookup array 0 ∅ i v Hnd Hi).
Qed.

Lemma create_from_bound (array : list string) k m :
  map_Forall (fun _ i => (i < k + length array)%nat) m ->
  map_Forall (fun _ i => (i < k + length array)%nat)
    (foldl UserNet.setitem m (zip (seq k (length array)) array)).
Proof.
  revert k m. induction array as [|x array IH]; intros k m Hm; [exact Hm|].
  simpl in *. replace (k + S (length array))%nat with (S k + length array)%nat
    in * by lia.
  apply IH. unfold UserNet.setitem. simpl.
  apply map_Forall_insert_2; [lia | exact Hm].
Qed.

Lemma create_dict_bound (array : list string) :
  map_Forall (fun _ i => (i < length array)%nat) (UserNet._create_dict array).
Proof.
  apply (create_from_bound array 0 ∅), map_Forall_empty.
Qed.

(** ** Construction *)

Lemma length_draw_matrix {A} `{Num.t A} rows cols g :
  length (draw_matrix (A:=A) rows cols g).1 = rows.
Proof. unfold draw_matrix. simpl. rewrite length_map, length_seq. reflexivity. Qed.

Lemma rect_draw_matrix {A} `{Num.t A} rows cols g :
  rect cols (draw_matrix (A:=A) rows cols g).1 = true.
Proof.
  apply rect_Forall, Forall_forall. intros r Hr. unfold draw_matrix in Hr.
  simpl in Hr. apply list_elem_of_fmap in Hr as (i & -> & _).
  rewrite length_map, length_seq. reflexivity.
Qed.

Lemma Linear_init_wf {A} `{Num.t A} i o g :
  Linear.wf (Linear.__init__ (A:=A) i o g).1 = true
  /\ Linear.in_features (Linear.__init__ (A:=A) i o g).1 = i
  /\ Linear.out_features (Linear.__init__ (A:=A) i o g).1 = o.
Proof.
  unfold Linear.wf, Linear.__init__, draws.
  pose proof (length_draw_matrix (A:=A) o i g) as Hl.
  pose proof (rect_draw_matrix (A:=A) o i g) as Hr.
  destruct (draw_matrix o i g) as [w g1]. simpl in *.
  rewrite Hl, Hr, length_map, length_seq, Nat.eqb_refl. auto.
Qed.

Lemma kaiming_wf {A} `{Num.t A} (l : Linear.t A) g :
  Linear.wf (UserNet._kaiming_ l g).1 = true
  /\ Linear.in_features (UserNet._kaiming_ l g).1 = Linear.in_features l
  /\ Linear.out_features (UserNet._kaiming_ l g).1 = Linear.out_features l.
Proof.
  unfold Linear.wf, UserNet._kaiming_.
  pose proof (length_draw_matrix (A:=A) (Linear.out_features l)
                (Linear.in_features l) g) as Hl.
  pose proof (rect_draw_matrix (A:=A) (Linear.out_features l)
                (Linear.in_features l) g) as Hr.
  destruct (draw_matrix _ _ g) as [w g1]. simpl in *.
  rewrite Hl, Hr, length_zeros, Nat.eqb_refl. auto.
Qed.

Lemma feature_kaiming_wf {A} `{Num.t A} (l : Linear.t A) g :
  Linear.wf (FeatureNet._kaiming_ l g).1 = true
  /\ Linear.in_features (FeatureNet._kaiming_ l g).1 = Linear.in_features l
  /\ Linear.out_features (FeatureNet._kaiming_ l g).1 = Linear.out_features l.
Proof. apply kaiming_wf. Qed.

Lemma Embedding_init_wf {A} `{Num.t A} n d g :
  Embedding.wf (Embedding.__init__ (A:=A) n d g).1 = true
  /\ Embedding.num_embeddings (Embedding.__init__ (A:=A) n d g).1 = n
  /\ Embedding.embedding_dim (Embedding.__init__ (A:=A) n d g).1 = d.
Proof.
  unfold Embedding.wf, Embedding.__init__.
  pose proof (length_draw_matrix (A:=A) n d g) as Hl.
  pose proof (rect_draw_matrix (A:=A) n d g) as Hr.
  destruct (draw_matrix n d g) as [w g1]. simpl in *.
  rewrite Hl, Hr, Nat.eqb_refl. auto.
Qed.

Lemma FeatureNet_init_wf {A} `{Num.t A} d fdim g :
  FeatureNet.wf d (FeatureNet.__init__ (A:=A) d fdim g).1 = true
  /\ Linear.in_features (FeatureNet.l1 (FeatureNet.__init__ (A:=A) d fdim g).1)
     = (d + fdim)%nat.
Proof.
  unfold FeatureNet.__init__, FeatureNet.wf.
  destruct (Linear_init_wf (A:=A) (d + fdim) d g) as (_ & Hi1 & Ho1).
  destruct (Linear.__init__ (d + fdim) d g) as [l1 g1]. simpl in Hi1, Ho1.
  destruct (Linear_init_wf (A:=A) d d g1) as (_ & Hi2 & Ho2).
  destruct (Linear.__init__ d d g1) as [l2 g2]. simpl in Hi2, Ho2.
  destruct (feature_kaiming_wf l1 g2) as (Hw1 & Hki1 & Hko1).
  destruct (FeatureNet._kaiming_ l1 g2) as [l1' g3]. simpl in Hw1, Hki1, Hko1.
  destruct (feature_kaiming_wf l2 g3) as (Hw2 & Hki2 & Hko2).
  destruct (FeatureNet._kaiming_ l2 g3) as [l2' g4]. simpl in Hw2, Hki2, Hko2.
  simpl. rewrite Hw1, Hw2, Hko1, Ho1, Hki2, Hi2, Hko2, Ho2, Hki1, Hi1.
  rewrite !Nat.eqb_refl. auto.
Qed.

(** What [__init__] builds: the two dictionaries, [feats] only for a
    positive feature dimension, and the shapes [wf] asks for. *)
Lemma init_model {A} `{Num.t A} users items emb_dim feature_dim g :
  let s := (UserNet.__init__ (A:=A) users items emb_dim feature_dim g).1 in
  UserNet.wf s = true
  /\ UserNet.user_dict s = UserNet._create_dict users
  /\ UserNet.item_dict s = UserNet._create_dict items
  /\ UserNet.emb_dim s = emb_dim
  /\ (is_Some (UserNet.feats s) <-> (0 < feature_dim)%nat)
  /\ (forall fn, UserNet.feats s = Some fn ->
        Linear.in_features (FeatureNet.l1 fn) = (emb_dim + feature_dim)%nat).
Proof.
  unfold UserNet.__init__, UserNet.wf.
  assert (exists fe g1,
            (if (0 <? feature_dim)%nat
             then let (f, g0) := FeatureNet.__init__ (A:=A) emb_dim feature_dim g in
                  (Some f, g0)
             else (None, g)) = (fe, g1)
            /\ (is_Some fe <-> (0 < feature_dim)%nat)
            /\ (forall fn, fe = Some fn ->
                  FeatureNet.wf emb_dim fn = true
                  /\ Linear.in_features (FeatureNet.l1 fn)
                     = (emb_dim + feature_dim)%nat)) as (fe & g1 & -> & Hfe & Hfn).
  { destruct (Nat.ltb_spec 0 feature_dim) as [Hpos|Hzero].
    - destruct (FeatureNet_init_wf (A:=A) emb_dim feature_dim g) as [Hw Hi].
      destruct (FeatureNet.__init__ emb_dim feature_dim g) as [f g0].
      exists (Some f), g0. split; [reflexivity|]. split.
      + split; [intros _; exact Hpos | eauto].
      + intros fn [= <-]. auto.
    - exists None, g. split; [reflexivity|]. split.
      + split; [intros [? ?]; discriminate | lia].
      + discriminate. }
  destruct (Embedding_init_wf (A:=A) (length users) emb_dim g1) as (Hue & Hun & Hud).
  destruct (Embedding.__init__ (length users) emb_dim g1) as [ue g2].
  destruct (Embedding_init_wf (A:=A) (length items) emb_dim g2) as (Hie & Hin & Hid).
  destruct (Embedding.__init__ (length items) emb_dim g2) as [ie g3].
  set (f := match fe with Some _ => 1%nat | None => 0%nat end).
  destruct (Linear_init_wf (A:=A) ((2 + f) * emb_dim) emb_dim g3) as (_ & Hi1 & Ho1).
  destruct (Linear.__init__ ((2 + f) * emb_dim) emb_dim g3) as [l1 g4].
  destruct (Linear_init_wf (A:=A) emb_dim 1 g4) as (Hw2 & Hi2 & Ho2).
  destruct (Linear.__init__ emb_dim 1 g4) as [l2 g5].
  destruct (kaiming_wf l1 g5) as (Hw1 & Hki1 & Hko1).
  destruct (UserNet._kaiming_ l1 g5) as [l1' g6].
  simpl in *. fold f.
  rewrite Hue, Hie, Hud, Hid, Hun, Hin, Hw1, Hw2, Hki1, Hi1, Hko1, Ho1, Hi2, Ho2.
  rewrite !Nat.eqb_refl.
  rewrite !bool_decide_eq_true_2 by apply create_dict_bound.
  repeat split; try (apply Hfe); try reflexivity.
  - destruct fe as [fn|]; [|reflexivity]. simpl. apply (Hfn fn eq_refl).
  - intros fn Hf. apply (Hfn fn Hf).
Qed.

Lemma init_wf {A} `{Num.t A} users items emb_dim feature_dim g :
  UserNet.wf (UserNet.__init__ (A:=A) users items emb_dim feature_dim g).1 = true.
Proof. apply init_model. Qed.

(** ** Calls leave the model and the generator as they were *)

Lemma after_same {A} `{Num.t A} (c : call A) w : after c w = w.
Proof.
  destruct w as [s g]. destruct c; simpl.
  - rewrite (run_reads _ s g (forward_ro _ _ _)). reflexivity.
  - rewrite (run_reads _ s g (get_items_ro _)). reflexivity.
  - rewrite (run_reads _ s g (_get_user_ro _)). reflexivity.
  - rewrite (run_reads _ s g (_get_items_ro _)). reflexivity.
  - rewrite (run_reads _ s g (score_ro _ _)). reflexivity.
Qed.

Lemma after_all_same {A} `{Num.t A} (cs : list (call A)) w : after_all cs w = w.
Proof.
  unfold after_all. induction cs as [|c cs IH]; simpl; [reflexivity|].
  rewrite after_same. exact IH.
Qed.

(** C7: for a list of unique identities, [_create_dict] maps the [i]-th
    identity to [i] and holds nothing else, so it is a bijection between the
    identities and the indices below their number; the model built by
    [__init__] holds these dictionaries, and no sequence of calls changes
    them. *)
Theorem create_dict_bijection (array : list string) :
  NoDup array ->
  let d := UserNet._create_dict array in
  (forall i v, array !! i = Some v -> d !! v = Some i)
  /\ (forall v i, d !! v = Some i -> (i < length array)%nat /\ array !! i = Some v)
  /\ (forall v v' i, d !! v = Some i -> d !! v' = Some i -> v = v')
  /\ (forall i, (i < length array)%nat -> exists v, d !! v = Some i)
  /\ (forall A (N : Num.t A) others emb_dim feature_dim g cs,
        UserNet.user_dict
          (after_all cs
             (UserNet.__init__ (A:=A) array others emb_dim feature_dim g)).1 = d
        /\ UserNet.item_dict
             (after_all cs
                (UserNet.__init__ (A:=A) others array emb_dim feature_dim g)).1 = d).
Proof.
  intros Hnd d.
  assert (forall v i, d !! v = Some i <-> array !! i = Some v) as Hspec
    by (intros; apply create_dict_lookup, Hnd).
  split; [|split; [|split; [|split]]].
  - intros i v. apply Hspec.
  - intros v i Hd. apply Hspec in Hd. split; [|exact Hd].
    apply lookup_lt_Some in Hd. exact Hd.
  - intros v v' i Hv Hv'. apply Hspec in Hv, Hv'. congruence.
  - intros i Hi. apply lookup_lt_is_Some_2 in Hi as [v Hv].
    exists v. apply Hspec, Hv.
  - intros A N others emb_dim feature_dim g cs. rewrite !after_all_same.
    split; apply init_model.
Qed.

Lemma create_dict_bijection_witness :
  UserNet._create_dict ["a"; "b"; "c"]%string !! "c"%string = Some 2%nat.
Proof.
  apply (create_dict_bijection ["a"; "b"; "c"]%string).
  - apply (bool_decide_unpack _). vm_compute. exact I.
  - reflexivity.
Defined.

(** ** The shape of what [forward] returns, in every configuration *)

Lemma rbind_ok_inv {T U} (r : result T) (k : T -> result U) b :
  rbind r k = Ok b -> exists a, r = Ok a /\ k a = Ok b.
Proof. destruct r as [a|e]; [eauto | discriminate]. Qed.

Lemma getitems_values d ids l :
  UserNet.getitems d ids = Ok l ->
  Forall (fun j => exists k, d !! k = Some j) l.
Proof.
  revert l. induction ids as [|k ids IH]; simpl; intros l.
  - intros [= <-]. constructor.
  - unfold UserNet.getitem. destruct (d !! k) as [j|] eqn:E; [|discriminate].
    simpl. destruct (UserNet.getitems d ids) as [l'|]; [|discriminate].
    simpl. intros [= <-]. constructor; eauto.
Qed.

Lemma gather_rows {A} (w : list (list A)) l rows :
  Embedding.gather w l = Ok rows -> Forall2 (fun j r => w !! j = Some r) l rows.
Proof.
  revert rows. induction l as [|j l IH]; simpl; intros rows.
  - intros [= <-]. constructor.
  - destruct (w !! j) as [r|] eqn:E; [|discriminate].
    destruct (Embedding.gather w l) as [rows'|]; [|discriminate].
    simpl. intros [= <-]. constructor; auto.
Qed.

Lemma lookups_ok_inv {A} (s : UserNet.t A) uid ids user items :
  shapes s -> lookups s uid ids = Ok (user, items) ->
  exists u rows,
    user = T1 u /\ length u = UserNet.emb_dim s
    /\ items = T2 (UserNet.emb_dim s) rows
    /\ Forall (fun r => length r = UserNet.emb_dim s) rows.
Proof.
  intros Hs. unfold lookups, UserNet.getitem.
  destruct (UserNet.user_dict s !! uid) as [i|] eqn:Hi; [|discriminate].
  cbn [rbind]. rewrite value_embedding. cbn [tensor_of_int].
  destruct (sh_user_rows s Hs _ _ Hi) as (u & Hu & Hlen). rewrite Hu.
  cbn [rbind].
  destruct (UserNet.getitems (UserNet.item_dict s) ids) as [l|] eqn:Hl;
    [|discriminate].
  cbn [rbind]. rewrite value_embedding.
  destruct l as [|j l]; [discriminate|]. cbn [tensor_of_ints].
  destruct (Embedding.gather _ (j :: l)) as [rows|] eqn:Hg; [|discriminate].
  cbn [rbind]. intros [= <- <-]. exists u, rows.
  rewrite (sh_item_dim s Hs). repeat split; try assumption.
  apply getitems_values in Hl. apply gather_rows in Hg.
  clear -Hs Hl Hg. induction Hg as [|j' r l' rows' Hr _ IH]; [constructor|].
  apply Forall_cons in Hl as [[k Hk] Hl]. constructor; [|apply IH, Hl].
  destruct (sh_item_rows s Hs _ _ Hk) as (r' & Hr' & Hlen). congruence.
Qed.

Lemma cat_three_inv {A} d1 (rows1 : list (list A)) d2 rows2 comps x :
  length rows1 = length rows2 ->
  cat [T2 d1 rows1; T2 d2 rows2; comps] = Ok x ->
  exists c rows, x = T2 c rows /\ length rows = length rows2.
Proof.
  intros Hlen. unfold cat. cbn [List.filter skipped negb].
  assert (length (zip_with app rows1 rows2) = length rows2) as Hz
    by (rewrite length_zip_with; lia).
  destruct (negb (skipped comps)); cbn [foldl rbind cat2];
    rewrite Hlen, Nat.eqb_refl; cbn [rbind].
  - destruct comps as [a|v|c3 rows3]; cbn [cat2]; try discriminate.
    rewrite Hz. destruct (Nat.eqb_spec (length rows2) (length rows3));
      [|discriminate].
    intros [= <-]. eexists _, _. split; [reflexivity|].
    rewrite length_zip_with. lia.
  - intros [= <-]. eauto.
Qed.

Lemma attention_ok_inv {A} `{Num.t A} (s : UserNet.t A) uid ids ft user items x :
  shapes s ->
  Meth.value (UserNet.attention uid ids ft) s = Ok (user, items, x) ->
  exists u rows w,
    user = T1 u /\ length u = UserNet.emb_dim s
    /\ items = T2 (UserNet.emb_dim s) rows
    /\ Forall (fun r => length r = UserNet.emb_dim s) rows
    /\ x = T2 1 w /\ length w = length rows
    /\ Forall (fun r => length r = 1%nat) w.
Proof.
  intros Hs Ha. rewrite value_attention in Ha.
  apply rbind_ok_inv in Ha as ([[[user0 items0] comps] x0] & Hc & Ha).
  rewrite value_concat in Hc.
  apply rbind_ok_inv in Hc as ([user1 items1] & Hl & Hc).
  apply (lookups_ok_inv s uid ids _ _ Hs) in Hl
    as (u & rows & -> & Hulen & -> & Hrect).
  apply rbind_ok_inv in Hc as (comps' & _ & Hc).
  apply rbind_ok_inv in Hc as (n & [= <-] & Hc).
  apply rbind_ok_inv in Hc as (usern & [= <-] & Hc).
  apply rbind_ok_inv in Hc as (x' & Hcat & [= <- <- <- <-]).
  apply cat_three_inv in Hcat as (c & X & -> & HX); [|apply repeat_length].
  cbn [fst snd] in Ha.
  apply rbind_ok_inv in Ha as (h & H1 & Ha). rewrite value_linear in H1.
  destruct (c =? _)%nat; [|discriminate]. injection H1 as <-.
  apply rbind_ok_inv in Ha as (z & H2 & [= <- <- <-]).
  cbn [relu tmap] in H2. rewrite value_linear in H2.
  destruct (_ =? _)%nat; [|discriminate]. injection H2 as <-.
  rewrite (sh_l2_out s Hs).
  pose proof (sh_l2_weight s Hs) as Hw. pose proof (sh_l2_bias s Hs) as Hb.
  match goal with
  | |- context [softmax0 (T2 1 ?L)] => set (Y := L)
  end.
  assert (Forall (fun r => length r = 1%nat) Y) as HY.
  { unfold Y. apply Forall_forall. intros r Hr.
    apply list_elem_of_fmap in Hr as (y & -> & _).
    rewrite (affine_singleton _ _ _ Hw Hb). reflexivity. }
  assert (length Y = length rows) as HYlen
    by (unfold Y; rewrite !length_map; exact HX).
  exists u, rows. unfold softmax0.
  destruct Y as [|r0 Y'] eqn:EY.
  - exists []. repeat split; try assumption; try reflexivity; try constructor.
  - eexists. repeat split; try assumption; try reflexivity.
    + rewrite !length_map. exact HYlen.
    + set (m := foldl _ r0 Y').
      assert (length m = 1%nat) as Hm.
      { apply length_foldl_zip_with; [apply (Forall_inv HY) |
          apply (Forall_inv_tail HY)]. }
      set (E := map _ (r0 :: Y')).
      assert (Forall (fun r => length r = 1%nat) E) as HE.
      { unfold E. apply Forall_forall. intros r Hr.
        apply list_elem_of_fmap in Hr as (y & -> & Hy).
        rewrite Forall_forall in HY.
        rewrite length_zip_with, (HY _ Hy), Hm. reflexivity. }
      apply Forall_forall. intros r Hr.
      apply list_elem_of_fmap in Hr as (y & -> & Hy).
      rewrite Forall_forall in HE.
      rewrite length_zip_with, (HE _ Hy), (length_sum_rows 1); [reflexivity|].
      apply Forall_forall, HE.
Qed.

Lemma broadcast_rows_length {A} `{Num.t A} (f : A -> A -> A) d rows w :
  Forall (fun r => length r = d) rows ->
  Forall (fun r => length r = 1%nat) w ->
  Forall (fun r => length r = d)
    (zip_with (fun x y => zip_with f (stretch Num.zero d x) (stretch Num.zero d y))
              rows w).
Proof.
  intros Hrows. revert w.
  induction Hrows as [|r0 rows Hr0 _ IH]; intros w Hw; [constructor|].
  destruct Hw as [|y w Hy Hw]; [constructor|]. simpl.
  constructor; [|apply IH, Hw].
  rewrite length_zip_with, (stretch_same _ _ r0 Hr0), Hr0.
  destruct y as [|a [|]]; try discriminate.
  rewrite stretch_singleton, repeat_length. lia.
Qed.

Lemma forward_ok_shape {A} `{Num.t A} (s : UserNet.t A) uid ids ft r :
  shapes s ->
  Meth.value (UserNet.forward uid ids ft) s = Ok r ->
  exists v, r = T1 v /\ length v = UserNet.emb_dim s.
Proof.
  intros Hs Hf. rewrite value_forward in Hf.
  apply rbind_ok_inv in Hf as ([[user items] x] & Ha & Hf).
  apply (attention_ok_inv s uid ids ft _ _ _ Hs) in Ha
    as (u & rows & w & -> & Hulen & -> & Hrect & -> & Hw & Hw1).
  cbn [fst snd] in Hf.
  apply rbind_ok_inv in Hf as (p & Hp & Hf).
  apply rbind_ok_inv in Hf as (sm & Hsm & Hx).
  unfold tmul, binop, binop2 in Hp. rewrite Hw, bdim_same, bdim_one in Hp.
  cbn [rbind] in Hp. injection Hp as <-.
  rewrite !stretch_same in Hsm by congruence.
  cbn [sum0] in Hsm. injection Hsm as <-.
  match type of Hx with
  | tadd _ (T1 ?v) = _ =>
      assert (length v = UserNet.emb_dim s) as Hv
  end.
  { apply length_sum_rows, broadcast_rows_length; assumption. }
  rewrite tadd_vec in Hx by congruence. injection Hx as <-.
  eexists. split; [reflexivity|].
  unfold vadd. rewrite length_zip_with, Hv, Hulen. lia.
Qed.

(** C9: [forward] and [get_items] leave the model as they found it: the
    embedding tables, the two dictionaries and the weights and biases of
    all layers are the same after the call, as after any sequence of calls;
    what [forward] produces, when it returns, is a vector of [emb_dim]
    entries. *)
Theorem calls_leave_model_unchanged {A} `{Num.t A} (s : UserNet.t A)
    uid ids ft g :
  (UserNet.forward uid ids ft s g).1.2 = s
  /\ (UserNet.get_items ids s g).1.2 = s
  /\ (forall cs, after_all cs (s, g) = (s, g))
  /\ (UserNet.wf s = true ->
      forall r, (UserNet.forward uid ids ft s g).1.1 = Ok r ->
      exists v, r = T1 v /\ length v = UserNet.emb_dim s).
Proof.
  split; [rewrite (run_reads _ s g (forward_ro _ _ _)); reflexivity|].
  split; [rewrite (run_reads _ s g (get_items_ro _)); reflexivity|].
  split; [intros cs; apply after_all_same|].
  intros Hwf r Hr. apply wf_shapes in Hwf.
  rewrite (run_reads _ s g (forward_ro _ _ _)) in Hr. simpl in Hr.
  exact (forward_ok_shape s uid ids ft r Hwf Hr).
Qed.

(** ** Determinism *)

(** Construction, unlike the calls, consumes the generator, and the model
    it builds depends on the state of the generator. *)
Lemma init_consumes_generator {A} `{Num.t A} users items emb_dim feature_dim g :
  (g < (UserNet.__init__ users items emb_dim feature_dim g).2)%nat.
Proof.
  unfold UserNet.__init__, FeatureNet.__init__, Linear.__init__,
    Embedding.__init__, UserNet._kaiming_, FeatureNet._kaiming_,
    draw_matrix, draws.
  destruct (0 <? feature_dim)%nat; cbn [fst snd Linear.in_features
    Linear.out_features]; lia.
Qed.

Lemma init_depends_on_generator :
  (UserNet.__init__ (A:=spec_float) ["u"]%string ["a"]%string 1 0 0%nat).1
  <> (UserNet.__init__ (A:=spec_float) ["u"]%string ["a"]%string 1 0 1%nat).1.
Proof. vm_compute. discriminate. Qed.

(** C8: [forward] and [score] take nothing from the framework's random
    generator: what they return is the same in every state of the
    generator, they leave the generator as it was, and a second call with
    the same arguments, also after any other calls on the model, returns
    what the first returned. *)
Theorem score_user_and_score_deterministic {A} `{Num.t A} (s : UserNet.t A)
    uid ids ft user items :
  (forall g g',
     (UserNet.forward uid ids ft s g').1.1 = (UserNet.forward uid ids ft s g).1.1
     /\ (UserNet.forward uid ids ft s g).2 = g)
  /\ (forall g,
        let r := UserNet.forward uid ids ft s g in
        (UserNet.forward uid ids ft r.1.2 r.2).1.1 = r.1.1)
  /\ (forall g cs,
        let w := after_all cs (s, g) in
        (UserNet.forward uid ids ft w.1 w.2).1.1
        = (UserNet.forward uid ids ft s g).1.1)
  /\ (forall g g',
        (UserNet.score user items s g').1.1 = (UserNet.score user items s g).1.1
        /\ (UserNet.score user items s g).2 = g)
  /\ (forall g,
        let r := UserNet.score user items s g in
        (UserNet.score user items r.1.2 r.2).1.1 = r.1.1)
  /\ (forall g cs,
        let w := after_all cs (s, g) in
        (UserNet.score user items w.1 w.2).1.1
        = (UserNet.score user items s g).1.1).
Proof.
  split; [|split; [|split; [|split; [|split]]]].
  - intros g g'. rewrite !(run_reads _ s _ (forward_ro _ _ _)). auto.
  - intros g. cbv zeta. rewrite !(run_reads _ _ _ (forward_ro _ _ _)).
    reflexivity.
  - intros g cs. cbv zeta. rewrite after_all_same. reflexivity.
  - intros g g'. rewrite !(run_reads _ s _ (score_ro _ _)). auto.
  - intros g. cbv zeta. rewrite !(run_reads _ _ _ (score_ro _ _)).
    reflexivity.
  - intros g cs. cbv zeta. rewrite after_all_same. reflexivity.
Qed.

(** ** Exact arithmetic *)

Ltac exact_ops :=
  change (@Num.zero R Exact) with 0 in *;
  change (@Num.one R Exact) with 1 in *;
  change (@Num.add R Exact) with Rplus in *;
  change (@Num.sub R Exact) with Rminus in *;
  change (@Num.mul R Exact) with Rmult in *;
  change (@Num.div R Exact) with Rdiv in *;
  change (@Num.exp R Exact) with exp in *;
  change (@Num.max R Exact) with Rmax in *.

Lemma foldl_Rplus (acc : R) v : foldl Rplus acc v = acc + foldr Rplus 0 v.
Proof.
  revert acc. induction v as [|a v IH]; intros acc; simpl; [lra|].
  rewrite IH. lra.
Qed.

Lemma vsum_exact (v : list R) : vsum v = foldr Rplus 0 v.
Proof. unfold vsum. exact_ops. rewrite foldl_Rplus. lra. Qed.

Lemma rsum_exp_nonneg (v : list R) : 0 <= foldr Rplus 0 (map exp v).
Proof.
  induction v as [|a v IH]; simpl; [lra|].
  pose proof (exp_pos a). lra.
Qed.

Lemma rsum_exp_pos (v : list R) : v <> [] -> 0 < foldr Rplus 0 (map exp v).
Proof.
  destruct v as [|a v]; [congruence|]. intros _. simpl.
  pose proof (exp_pos a). pose proof (rsum_exp_nonneg v). lra.
Qed.

Lemma rsum_map_div (f : R -> R) d v :
  foldr Rplus 0 (map (fun a => f a / d) v) = foldr Rplus 0 (map f v) / d.
Proof.
  induction v as [|a v IH]; simpl.
  - unfold Rdiv. lra.
  - rewrite IH. unfold Rdiv. lra.
Qed.

(** In exact arithmetic subtracting the largest logit changes nothing. *)
Lemma softmax_vec_exact (v : list R) :
  softmax_vec v = map (fun a => exp a / foldr Rplus 0 (map exp v)) v.
Proof.
  unfold softmax_vec. destruct v as [|a0 v0]; [reflexivity|].
  generalize (foldl Num.max a0 v0). intros m.
  generalize (a0 :: v0). intros v. cbv zeta.
  rewrite vsum_exact, !map_map. exact_ops.
  assert (foldr Rplus 0 (map (fun x => exp (x - m)) v)
          = foldr Rplus 0 (map exp v) / exp m) as ->.
  { rewrite <- (rsum_map_div exp). f_equal. apply map_ext. intros x.
    unfold Rminus. rewrite exp_plus, exp_Ropp. reflexivity. }
  destruct v as [|a v]; [reflexivity|].
  pose proof (rsum_exp_pos (a :: v) ltac:(discriminate)) as Hpos.
  apply map_ext. intros x. pose proof (exp_pos m) as Hm.
  unfold Rminus. rewrite exp_plus, exp_Ropp. field. lra.
Qed.



Lemma softmax_vec_single_exact (a : R) : softmax_vec [a] = [1].
Proof.
  rewrite softmax_vec_exact. simpl. f_equal. rewrite Rplus_0_r.
  apply Rdiv_diag. pose proof (exp_pos a). lra.
Qed.







Lemma weighted_sum_single_exact d (r : list R) :
  length r = d -> weighted_sum d [1] [r] = r.
Proof.
  intros <-. unfold weighted_sum, sum_rows, vscale, zeros. simpl. exact_ops.
  induction r as [|x r IH]; simpl; [reflexivity|]. rewrite IH. f_equal. lra.
Qed.

(** ** binary32 *)

Lemma sub_self_binary32 x :
  F32.finite x = true -> exists s, F32.sub x x = S754_zero s.
Proof.
  destruct x as [s| | |s m e]; try discriminate; intros _.
  - destruct s; eexists; reflexivity.
  - exists false. unfold F32.sub, SFsub. cbv zeta.
    rewrite Z.sub_diag. reflexivity.
Qed.

Lemma softmax_vec_single_binary32 (l : spec_float) :
  F32.finite l = true -> softmax_vec [l] = [Num.one].
Proof.
  intros Hl. destruct (sub_self_binary32 l Hl) as [s Hs].
  unfold softmax_vec. cbn [foldl map].
  change (@Num.sub spec_float Binary32) with F32.sub. rewrite Hs.
  vm_compute. reflexivity.
Qed.

(** ** Attention pooling *)




(** C2: with fusion disabled, for a known user and a single known item with
    logit [l], the attention weight inside [forward] is
    [exp (l - l) / (0 + exp (l - l))] and [forward] returns the user's row
    plus the item's row scaled by that weight, in the arithmetic of the
    entries.  In exact arithmetic the weight is 1 and [forward] returns
    the user's embedding row plus the item's embedding row.  In binary32
    the weight is 1 whenever the logit is finite. *)
Theorem score_user_single_item :
  (forall A (N : Num.t A) (s : UserNet.t A) uid iid ft g,
     UserNet.wf s = true ->
     UserNet.feats s = None ->
     UserNet.known (UserNet.user_dict s) uid = true ->
     UserNet.known (UserNet.item_dict s) iid = true ->
     let d := UserNet.emb_dim s in
     let u := user_row s uid in
     let r := item_row s iid in
     let e := Num.exp (Num.sub (logit s u r) (logit s u r)) in
     let w := Num.div e (Num.add Num.zero e) in
     UserNet.attention uid [iid] ft s g = (Ok (T1 u, T2 d [r], T2 1 [[w]]), s, g)
     /\ UserNet.forward uid [iid] ft s g
        = (Ok (T1 (vadd u (vadd (zeros d) (vscale w r)))), s, g))
  /\ (forall (s : UserNet.t R) uid iid ft g,
        UserNet.wf s = true ->
        UserNet.feats s = None ->
        UserNet.known (UserNet.user_dict s) uid = true ->
        UserNet.known (UserNet.item_dict s) iid = true ->
        UserNet.attention uid [iid] ft s g
        = (Ok (T1 (user_row s uid), T2 (UserNet.emb_dim s) [item_row s iid],
               T2 1 [[1]]), s, g)
        /\ UserNet.forward uid [iid] ft s g
           = (Ok (T1 (vadd (user_row s uid) (item_row s iid))), s, g))
  /\ (forall (s : UserNet.t spec_float) uid iid ft g,
        UserNet.wf s = true ->
        UserNet.feats s = None ->
        UserNet.known (UserNet.user_dict s) uid = true ->
        UserNet.known (UserNet.item_dict s) iid = true ->
        F32.finite (logit s (user_row s uid) (item_row s iid)) = true ->
        UserNet.attention uid [iid] ft s g
        = (Ok (T1 (user_row s uid), T2 (UserNet.emb_dim s) [item_row s iid],
               T2 1 [[F32.of_Z 1]]), s, g)).
Proof.
  split; [|split].
  - intros A N s uid iid ft g Hwf Hfe Hu Hi d u r e w. apply wf_shapes in Hwf.
    assert (forallb (UserNet.known (UserNet.item_dict s)) [iid] = true) as Hids
      by (simpl; rewrite Hi; reflexivity).
    split.
    + rewrite (run_reads _ s g (attention_ro uid [iid] ft)).
      rewrite value_attention_closed by (assumption || discriminate).
      reflexivity.
    + rewrite (run_reads _ s g (forward_ro uid [iid] ft)).
      rewrite value_forward_closed by (assumption || discriminate).
      reflexivity.
  - intros s uid iid ft g Hwf Hfe Hu Hi. apply wf_shapes in Hwf.
    assert (forallb (UserNet.known (UserNet.item_dict s)) [iid] = true) as Hids
      by (simpl; rewrite Hi; reflexivity).
    destruct (item_rows_lookup s [iid] Hwf Hids) as (l & _ & _ & _ & Hrect).
    split.
    + rewrite (run_reads _ s g (attention_ro uid [iid] ft)).
      rewrite value_attention_closed by (assumption || discriminate).
      unfold logits, item_rows. cbn [map].
      rewrite softmax_vec_single_exact. reflexivity.
    + rewrite (run_reads _ s g (forward_ro uid [iid] ft)).
      rewrite value_forward_closed by (assumption || discriminate).
      unfold logits, item_rows. cbn [map].
      rewrite softmax_vec_single_exact, weighted_sum_single_exact;
        [reflexivity|].
      inversion Hrect; assumption.
  - intros s uid iid ft g Hwf Hfe Hu Hi Hfin. apply wf_shapes in Hwf.
    assert (forallb (UserNet.known (UserNet.item_dict s)) [iid] = true) as Hids
      by (simpl; rewrite Hi; reflexivity).
    rewrite (run_reads _ s g (attention_ro uid [iid] ft)).
    rewrite value_attention_closed by (assumption || discriminate).
    unfold logits, item_rows. cbn [map].
    rewrite (softmax_vec_single_binary32 _ Hfin). reflexivity.
Qed.

Lemma score_user_single_item_witness :
  (UserNet.attention "u2" ["c"]%string None Sample.net O
   = (Ok (T1 (user_row Sample.net "u2"), T2 2 [item_row Sample.net "c"],
          T2 1 [[1]]), Sample.net, O)
   /\ UserNet.forward "u2" ["c"]%string None Sample.net O
      = (Ok (T1 (vadd (user_row Sample.net "u2") (item_row Sample.net "c"))),
         Sample.net, O))
  /\ UserNet.attention "u2" ["c"]%string None Sample.net32 O
     = (Ok (T1 (user_row Sample.net32 "u2"), T2 2 [item_row Sample.net32 "c"],
            T2 1 [[F32.of_Z 1]]), Sample.net32, O).
Proof.
  split.
  - apply (proj1 (proj2 score_user_single_item) Sample.net "u2" "c" None O);
      [vm_compute; reflexivity | reflexivity | reflexivity | reflexivity].
  - exact (proj2 (proj2 score_user_single_item) Sample.net32 "u2" "c" None O
             ltac:(vm_compute; reflexivity) eq_refl eq_refl eq_refl
             ltac:(vm_compute; reflexivity)).
Defined.

(** In binary32, a single item whose logit overflows has the weight NaN,
    not 1, and [forward] returns NaN, not the sum of the two rows. *)
Lemma single_item_weight_binary32 :
  Meth.value (UserNet.attention "u" ["a"]%string None) Sample.overflow32
  = Ok (T1 [F32.of_Z 1], T2 1 [[F32.of_Z (2 ^ 127)]], T2 1 [[S754_nan]])
  /\ S754_nan <> F32.of_Z 1
  /\ Meth.value (UserNet.forward "u" ["a"]%string None) Sample.overflow32
     = Ok (T1 [S754_nan])
  /\ vadd (user_row Sample.overflow32 "u") (item_row Sample.overflow32 "a")
     = [F32.of_Z (2 ^ 127)].
Proof.
  split; [vm_compute; reflexivity|].
  split; [vm_compute; discriminate|].
  split; vm_compute; reflexivity.
Qed.




(** ** The static [score] *)









(** ** The concatenation without fusion *)

Lemma cat_user_items_block {A} d (u : list A) rows :
  cat [T2 d (repeat u (length rows)); T2 d rows; T2 0 (repeat [] (length rows))]
  = Ok (T2 (2 * d) (map (app u) rows)).
Proof.
  unfold cat. simpl. rewrite repeat_length, Nat.eqb_refl. simpl.
  rewrite zip_with_app_repeat, length_map, repeat_length, Nat.eqb_refl.
  rewrite <- (length_map (app u) rows), zip_with_app_nil, !Nat.add_0_r.
  reflexivity.
Qed.

(** C5: with fusion disabled the components block [forward] builds is the
    tensor [torch.tensor([])], of rank 1 and shape [(0,)], with no
    element; [torch.cat] skips it, which gives what concatenating an
    [n × 0] block would give: the concatenation of [[U, I, C]] is the
    [n × 2d] tensor whose [i]-th row is the user row followed by the
    [i]-th item row, which is the width layer1 takes. *)
Theorem fusion_disabled_components_empty {A} `{Num.t A} (s : UserNet.t A)
    uid ids ft g :
  UserNet.wf s = true ->
  UserNet.feats s = None ->
  UserNet.known (UserNet.user_dict s) uid = true ->
  forallb (UserNet.known (UserNet.item_dict s)) ids = true ->
  ids <> [] ->
  let d := UserNet.emb_dim s in
  let n := length ids in
  let u := user_row s uid in
  let rows := item_rows s ids in
  exists components x,
    UserNet.concat uid ids ft s g = (Ok (T1 u, T2 d rows, components, x), s, g)
    /\ components = T1 []
    /\ shape components = [0%nat]
    /\ numel components = 0%nat
    /\ cat [T2 d (repeat u n); T2 d rows; components] = Ok x
    /\ cat [T2 d (repeat u n); T2 d rows; T2 0 (repeat [] n)] = Ok x
    /\ cat [T2 d (repeat u n); T2 d rows] = Ok x
    /\ x = T2 (2 * d) (map (app u) rows)
    /\ shape x = [n; (2 * d)%nat]
    /\ Linear.in_features (UserNet.l1 s) = (2 * d)%nat.
Proof.
  intros Hwf Hfe Hu Hids Hne d n u rows. apply wf_shapes in Hwf.
  assert (length rows = n) as Hn by apply length_map.
  exists (T1 []), (T2 (2 * d) (map (app u) rows)).
  split; [|split; [|split; [|split; [|split; [|split; [|split; [|split;
    [|split]]]]]]]]; try reflexivity.
  - rewrite (run_reads _ s g (concat_ro uid ids ft)).
    rewrite value_concat_closed by assumption. reflexivity.
  - rewrite <- Hn. apply cat_user_items.
  - rewrite <- Hn. apply cat_user_items_block.
  - rewrite <- Hn. apply cat_user_items.
  - simpl. rewrite length_map. fold rows. rewrite Hn. reflexivity.
  - rewrite (sh_l1_in s Hwf), Hfe. reflexivity.
Qed.

Lemma fusion_disabled_components_empty_witness :
  exists components x,
    UserNet.concat "u1" ["a"; "b"]%string None Sample.net32 O
    = (Ok (T1 (user_row Sample.net32 "u1"),
           T2 2 (item_rows Sample.net32 ["a"; "b"]%string), components, x),
       Sample.net32, O)
    /\ shape components = [0%nat]
    /\ shape x = [2%nat; 4%nat].
Proof.
  pose proof (fusion_disabled_components_empty Sample.net32 "u1"
                ["a"; "b"]%string None O ltac:(vm_compute; reflexivity)
                ltac:(reflexivity) ltac:(reflexivity) ltac:(reflexivity)
                ltac:(discriminate)) as Hc.
  cbv zeta in Hc. destruct Hc as (components & x & Hc).
  destruct Hc as (Hrun & _ & Hshape & _ & _ & _ & _ & _ & Hx & _).
  exists components, x. split; [exact Hrun|]. split; [exact Hshape | exact Hx].
Defined.

(** The components block of a call with two items has the shape [(0,)],
    not the shape [(2, 0)]. *)
Lemma components_shape_rank1 :
  rbind (Meth.value (UserNet.concat "u1" ["a"; "b"]%string None) Sample.net32)
        (fun uicx => Ok (shape uicx.1.2))
  = Ok [0%nat]
  /\ [0%nat] <> [2%nat; 0%nat].
Proof. split; [vm_compute; reflexivity | discriminate]. Qed.

(** * Further properties of the code *)

(** ** [_create_dict] on arbitrary lists *)

Lemma create_dict_snoc (array : list string) x :
  UserNet._create_dict (array ++ [x])
  = <[x := length array]> (UserNet._create_dict array).
Proof.
  unfold UserNet._create_dict, UserNet.enumerate.
  rewrite length_app, seq_app.
  rewrite zip_with_app by apply length_seq.
  rewrite foldl_app. reflexivity.
Qed.

Lemma create_dict_None (array : list string) v :
  UserNet._create_dict array !! v = None <-> v ∉ array.
Proof.
  induction array as [|x array IH] using rev_ind.
  - unfold UserNet._create_dict. simpl. rewrite lookup_empty.
    split; [intros _ Hin; inversion Hin | reflexivity].
  - rewrite create_dict_snoc, lookup_insert_None, IH, not_elem_of_app,
      not_elem_of_cons.
    split; [intros [H1 H2]; repeat split;
              [exact H1 | congruence | apply not_elem_of_nil]
           | intros [H1 [H2 _]]; split; [exact H1 | congruence]].
Qed.

Lemma create_dict_last (array : list string) v i :
  UserNet._create_dict array !! v = Some i
  <-> array !! i = Some v /\ forall j, (i < j)%nat -> array !! j <> Some v.
Proof.
  revert i. induction array as [|x array IH] using rev_ind; intros i.
  - unfold UserNet._create_dict. simpl. rewrite lookup_empty.
    split; [discriminate | intros [Hi _]; discriminate].
  - rewrite create_dict_snoc. destruct (decide (x = v)) as [->|Hne].
    + rewrite lookup_insert_eq. split.
      * intros [= <-]. split.
        -- rewrite lookup_app_r, Nat.sub_diag by lia. reflexivity.
        -- intros j Hj. rewrite lookup_ge_None_2; [discriminate|].
           rewrite length_app. simpl. lia.
      * intros [Hi Hlater]. f_equal.
        destruct (decide (i < length array)%nat) as [Hlt|Hge].
        -- exfalso. apply (Hlater (length array) Hlt).
           rewrite lookup_app_r, Nat.sub_diag by lia. reflexivity.
        -- apply lookup_lt_Some in Hi. rewrite length_app in Hi.
           simpl in Hi. lia.
    + rewrite lookup_insert_ne by exact Hne. rewrite IH. split.
      * intros [Hi Hlater]. split.
        -- rewrite lookup_app_l by (apply lookup_lt_Some in Hi; exact Hi).
           exact Hi.
        -- intros j Hj. destruct (decide (j < length array)%nat) as [Hlt|Hge].
           ++ rewrite lookup_app_l by exact Hlt. apply Hlater, Hj.
           ++ rewrite lookup_app_r by lia.
              destruct (j - length array)%nat as [|[|]]; cbn;
                [intros [= ?]; congruence | discriminate | discriminate].
      * intros [Hi Hlater].
        assert (i < length array)%nat as Hlt.
        { destruct (decide (i < length array)%nat) as [Hlt|Hge]; [exact Hlt|].
          rewrite lookup_app_r in Hi by lia.
          destruct (i - length array)%nat as [|[|]]; cbn in Hi;
            [injection Hi as ?; congruence | discriminate | discriminate]. }
        rewrite lookup_app_l in Hi by exact Hlt. split; [exact Hi|].
        intros j Hj Hv. apply (Hlater j Hj).
        rewrite lookup_app_l by (apply lookup_lt_Some in Hv; exact Hv).
        exact Hv.
Qed.

(** X1: on any list, also one with repeated identities, [_create_dict] holds
    exactly the identities of the list, each at the index of its last
    occurrence; every index it holds is below the length of the list. *)
Theorem create_dict_last_occurrence (array : list string) (v : string) :
  (forall i, UserNet._create_dict array !! v = Some i
             <-> array !! i = Some v
                 /\ forall j, (i < j)%nat -> array !! j <> Some v)
  /\ (UserNet.known (UserNet._create_dict array) v = true <-> v ∈ array)
  /\ (forall i, UserNet._create_dict array !! v = Some i -> (i < length array)%nat).
Proof.
  split; [intros i; apply create_dict_last|]. split.
  - rewrite known_Some, <- not_eq_None_Some, create_dict_None.
    split; [apply dec_stable | auto].
  - intros i [Hi _]%create_dict_last. apply lookup_lt_Some in Hi. exact Hi.
Qed.

(** ** Constructed models and the empty item list *)

(** X2: a model built by [__init__] without features scores every user of
    its user list against every non-empty list of items of its item list,
    whether or not the lists repeat identities: [forward] returns a vector
    of [emb_dim] entries and leaves the model and the generator as they
    were after construction. *)
Theorem constructed_model_scores {A} `{Num.t A} users items d g uid ids ft :
  uid ∈ users ->
  ids <> [] ->
  Forall (fun k => k ∈ items) ids ->
  let sg := UserNet.__init__ (A:=A) users items d 0 g in
  exists v,
    UserNet.forward uid ids ft sg.1 sg.2 = (Ok (T1 v), sg.1, sg.2)
    /\ length v = d.
Proof.
  intros Hu Hne Hids sg.
  destruct (init_model (A:=A) users items d 0 g)
    as (Hwf & Hud & Hid & Hd & Hfe & _).
  fold sg in Hwf, Hud, Hid, Hd, Hfe. set (s := sg.1) in *.
  pose proof (wf_shapes s Hwf) as Hs.
  assert (UserNet.feats s = None) as Hnone.
  { destruct (UserNet.feats s) eqn:E; [|reflexivity].
    assert (0 < 0)%nat by (apply Hfe; eauto). lia. }
  assert (UserNet.known (UserNet.user_dict s) uid = true) as Hku.
  { apply known_Some, not_eq_None_Some. rewrite Hud. intros Hn.
    apply create_dict_None in Hn. exact (Hn Hu). }
  assert (forallb (UserNet.known (UserNet.item_dict s)) ids = true) as Hki.
  { apply forallb_forall. intros k Hk. apply list_elem_of_In in Hk.
    rewrite Forall_forall in Hids.
    apply known_Some, not_eq_None_Some. rewrite Hid. intros Hn.
    apply create_dict_None in Hn. exact (Hn (Hids k Hk)). }
  destruct (user_row_lookup s uid Hs Hku) as (i & _ & _ & Hulen).
  destruct (item_rows_lookup s ids Hs Hki) as (l & _ & _ & _ & Hrect).
  eexists. split.
  - rewrite (run_reads _ s sg.2 (forward_ro uid ids ft)).
    rewrite value_forward_closed by assumption. reflexivity.
  - unfold vadd at 1. rewrite length_zip_with, length_weighted_sum by exact Hrect.
    rewrite Hulen, Hd. lia.
Qed.

Lemma constructed_model_scores_witness :
  let sg := UserNet.__init__ (A:=spec_float)
              ["u"; "v"; "u"]%string ["a"; "b"]%string 3 0 O in
  exists v,
    UserNet.forward "u" ["b"; "a"; "b"]%string None sg.1 sg.2
    = (Ok (T1 v), sg.1, sg.2)
    /\ length v = 3%nat.
Proof.
  exact (constructed_model_scores (A:=spec_float) ["u"; "v"; "u"]%string
           ["a"; "b"]%string 3 O "u" ["b"; "a"; "b"]%string None
           ltac:(apply (bool_decide_unpack _); vm_compute; exact I)
           ltac:(discriminate)
           ltac:(apply (bool_decide_unpack _); vm_compute; exact I)).
Defined.

(** X3: an empty item list is rejected.  [_get_items] returns the tensor of
    an empty Python list, which is a float tensor; the embedding table
    takes integer indices only, so [get_items] raises [RuntimeError], and
    so does [forward] for a known user, with or without features. *)
Theorem empty_item_list_raises {A} `{Num.t A} (s : UserNet.t A) uid ft g :
  UserNet._get_items [] s g = (Ok IEmptyFloat, s, g)
  /\ UserNet.get_items [] s g = (Raise RuntimeError, s, g)
  /\ (UserNet.wf s = true ->
      UserNet.known (UserNet.user_dict s) uid = true ->
      UserNet.forward uid [] ft s g = (Raise RuntimeError, s, g)).
Proof.
  split; [reflexivity|]. split.
  - rewrite (run_reads _ s g (get_items_ro [])), value_get_items. reflexivity.
  - intros Hwf Hu. apply wf_shapes in Hwf.
    destruct (user_row_lookup s uid Hwf Hu) as (i & Hi & Hrow & _).
    rewrite (run_reads _ s g (forward_ro uid [] ft)).
    rewrite value_forward_raise with (e := RuntimeError); [reflexivity|].
    apply value_concat_raise.
    unfold lookups. rewrite (getitem_known _ _ _ Hi). cbn [rbind].
    rewrite value_embedding. cbn [tensor_of_int]. rewrite Hrow. reflexivity.
Qed.

(** ** [FeatureNet.forward] *)

Lemma cat_vec {A} (u r : list A) : cat [T1 u; T1 r] = Ok (T1 (u ++ r)).
Proof.
  unfold cat. destruct u as [|a u], r as [|b r]; simpl; try reflexivity.
  rewrite app_nil_r. reflexivity.
Qed.

Lemma length_affine {A} `{Num.t A} w b (x : list A) :
  length (Linear.affine w b x) = Nat.min (length w) (length b).
Proof. unfold Linear.affine. apply length_zip_with. Qed.

Lemma feature_shapes {A} d (fn : FeatureNet.t A) :
  FeatureNet.wf d fn = true ->
  Linear.out_features (FeatureNet.l1 fn) = d
  /\ Linear.in_features (FeatureNet.l2 fn) = d
  /\ Linear.out_features (FeatureNet.l2 fn) = d
  /\ length (Linear.weight (FeatureNet.l2 fn)) = d
  /\ length (Linear.bias (FeatureNet.l2 fn)) = d
  /\ length (Linear.weight (FeatureNet.l1 fn)) = d
  /\ length (Linear.bias (FeatureNet.l1 fn)) = d.
Proof.
  unfold FeatureNet.wf, Linear.wf. intros Hwf.
  repeat (apply andb_prop in Hwf as [Hwf ?]).
  repeat match goal with
         | H : (_ =? _)%nat = true |- _ => apply Nat.eqb_eq in H
         end.
  match goal with
  | H : _ && _ && _ = true |- _ =>
      apply andb_prop in H as [[Hw _]%andb_prop Hb];
      apply Nat.eqb_eq in Hw, Hb
  end.
  repeat split; congruence.
Qed.

Lemma length_fuse {A} `{Num.t A} d (fn : FeatureNet.t A) u r :
  FeatureNet.wf d fn = true -> length (fuse fn u r) = d.
Proof.
  intros (_ & _ & _ & Hw & Hb & _)%feature_shapes.
  unfold fuse. rewrite length_map, length_affine, Hw, Hb. apply Nat.min_id.
Qed.

Lemma feature_forward_single {A} `{Num.t A} d fdim (fn : FeatureNet.t A) u r :
  FeatureNet.wf d fn = true ->
  Linear.in_features (FeatureNet.l1 fn) = (d + fdim)%nat ->
  length u = d -> length r = fdim ->
  Meth.value (FeatureNet.forward (T1 u) (T1 r)) fn = Ok (T1 (fuse fn u r)).
Proof.
  intros (H1o & H2i & H2o & _ & _ & H1w & H1b)%feature_shapes H1i Hu Hr.
  rewrite value_feature_forward. cbn [shape length Nat.ltb Nat.leb rbind].
  rewrite cat_vec. cbn [rbind].
  rewrite value_linear, length_app, Hu, Hr, H1i, Nat.eqb_refl.
  cbn [rbind relu tmap].
  rewrite value_linear, length_map, length_affine, H1w, H1b, Nat.min_id, H2i,
    Nat.eqb_refl.
  reflexivity.
Qed.

Lemma feature_forward_batch {A} `{Num.t A} d fdim (fn : FeatureNet.t A) u rows :
  FeatureNet.wf d fn = true ->
  Linear.in_features (FeatureNet.l1 fn) = (d + fdim)%nat ->
  length u = d ->
  Meth.value (FeatureNet.forward (T1 u) (T2 fdim rows)) fn
  = Ok (T2 d (map (fuse fn u) rows)).
Proof.
  intros (H1o & H2i & H2o & _)%feature_shapes H1i Hu.
  rewrite value_feature_forward.
  cbn [shape length Nat.ltb Nat.leb rbind shape0 expand].
  unfold cat. cbn [List.filter skipped negb foldl rbind cat2].
  rewrite repeat_length, Nat.eqb_refl, zip_with_app_repeat. cbn [rbind].
  rewrite value_linear, Hu, H1i, Nat.eqb_refl. cbn [rbind relu tmap].
  rewrite value_linear, H1o, H2i, Nat.eqb_refl. cbn [rbind relu tmap].
  rewrite H2o, !map_map. reflexivity.
Qed.

(** X4: [FeatureNet.forward] processes a batch of feature rows row by row:
    on [n] rows of the width the module takes it returns [n] rows of
    [emb_dim] entries, and its [i]-th row is what it returns on the [i]-th
    feature row alone; the module and the generator are left as they
    were. *)
Theorem feature_batch_rowwise {A} `{Num.t A} d fdim (fn : FeatureNet.t A)
    u rows g :
  FeatureNet.wf d fn = true ->
  Linear.in_features (FeatureNet.l1 fn) = (d + fdim)%nat ->
  length u = d ->
  rect fdim rows = true ->
  exists out,
    FeatureNet.forward (T1 u) (T2 fdim rows) fn g = (Ok (T2 d out), fn, g)
    /\ length out = length rows
    /\ forall i r, rows !! i = Some r ->
         exists o,
           out !! i = Some o
           /\ FeatureNet.forward (T1 u) (T1 r) fn g = (Ok (T1 o), fn, g)
           /\ length o = d.
Proof.
  intros Hwf H1i Hu Hrect%rect_Forall.
  exists (map (fuse fn u) rows). split; [|split].
  - rewrite (run_reads _ fn g (FeatureNet_forward_ro _ _)).
    rewrite (feature_forward_batch d fdim) by assumption. reflexivity.
  - apply length_map.
  - intros i r Hi. exists (fuse fn u r). split; [|split].
    + rewrite list_lookup_fmap, Hi. reflexivity.
    + rewrite Forall_lookup in Hrect.
      rewrite (run_reads _ fn g (FeatureNet_forward_ro _ _)).
      rewrite (feature_forward_single d fdim) by eauto. reflexivity.
    + apply (length_fuse d), Hwf.
Qed.

Lemma feature_batch_rowwise_witness :
  exists out,
    FeatureNet.forward (T1 [F32.of_Z 1; F32.of_Z 2])
      (T2 3 [[F32.of_Z 1; F32.of_Z 2; F32.of_Z 3];
             [F32.of_Z 4; F32.of_Z 5; F32.of_Z 6]])
      (FeatureNet.__init__ 2 3 O).1 O
    = (Ok (T2 2 out), (FeatureNet.__init__ 2 3 O).1, O)
    /\ length out = 2%nat.
Proof.
  pose proof (feature_batch_rowwise 2 3 (FeatureNet.__init__ 2 3 O).1
                [F32.of_Z 1; F32.of_Z 2]
                [[F32.of_Z 1; F32.of_Z 2; F32.of_Z 3];
                 [F32.of_Z 4; F32.of_Z 5; F32.of_Z 6]] O
                ltac:(vm_compute; reflexivity) ltac:(reflexivity)
                ltac:(reflexivity) ltac:(reflexivity)) as Hb.
  destruct Hb as (out & Hrun & Hlen & _).
  exists out. split; [exact Hrun | exact Hlen].
Defined.

(** ** [UserNet.forward] with feature fusion *)

Lemma fused_wf_inv {A} (s : UserNet.t A) fdim :
  fused_wf s fdim = true ->
  exists fn,
    UserNet.feats s = Some fn
    /\ shapes s
    /\ FeatureNet.wf (UserNet.emb_dim s) fn = true
    /\ Linear.in_features (FeatureNet.l1 fn) = (UserNet.emb_dim s + fdim)%nat
    /\ Linear.in_features (UserNet.l1 s) = (3 * UserNet.emb_dim s)%nat.
Proof.
  unfold fused_wf. intros [Hwf Hf]%andb_prop.
  destruct (UserNet.feats s) as [fn|] eqn:Hfn; [|discriminate].
  exists fn. pose proof (wf_shapes s Hwf) as Hs.
  split; [reflexivity|]. split; [exact Hs|]. split; [|split].
  - unfold UserNet.wf in Hwf. apply andb_prop in Hwf as [_ Hfw].
    rewrite Hfn in Hfw. exact Hfw.
  - apply Nat.eqb_eq, Hf.
  - rewrite (sh_l1_in s Hs), Hfn. reflexivity.
Qed.

Lemma zip_with_app_assoc {A} (u : list A) rows cs :
  zip_with app (map (app u) rows) cs = map (app u) (zip_with app rows cs).
Proof.
  revert cs. induction rows as [|r rows IH]; intros [|c cs]; simpl;
    try reflexivity.
  rewrite IH, app_assoc. reflexivity.
Qed.

Lemma cat_fused {A} d (u : list A) rows cs :
  length cs = length rows ->
  cat [T2 d (repeat u (length rows)); T2 d rows; T2 d cs]
  = Ok (T2 (3 * d) (map (app u) (zip_with app rows cs))).
Proof.
  intros Hlen. unfold cat. cbn [List.filter skipped negb foldl rbind cat2].
  rewrite repeat_length, Nat.eqb_refl. cbn [rbind cat2].
  rewrite zip_with_app_repeat, length_map, Hlen, Nat.eqb_refl.
  rewrite zip_with_app_assoc. do 2 f_equal. lia.
Qed.

Lemma cat_fused_mismatch {A} d (u : list A) rows cs :
  length cs <> length rows ->
  cat [T2 d (repeat u (length rows)); T2 d rows; T2 d cs] = Raise RuntimeError.
Proof.
  intros Hlen. unfold cat. cbn [List.filter skipped negb foldl rbind cat2].
  rewrite repeat_length, Nat.eqb_refl. cbn [rbind cat2].
  rewrite zip_with_app_repeat, length_map.
  destruct (Nat.eqb_spec (length rows) (length cs)); [congruence | reflexivity].
Qed.

Lemma fused_concat_closed {A} `{Num.t A} (s : UserNet.t A) fdim fn uid ids feats :
  fused_wf s fdim = true ->
  UserNet.feats s = Some fn ->
  UserNet.known (UserNet.user_dict s) uid = true ->
  forallb (UserNet.known (UserNet.item_dict s)) ids = true ->
  ids <> [] ->
  rect fdim feats = true ->
  length feats = length ids ->
  Meth.value (UserNet.concat uid ids (Some (T2 fdim feats))) s
  = Ok (T1 (user_row s uid), T2 (UserNet.emb_dim s) (item_rows s ids),
        T2 (UserNet.emb_dim s) (map (fuse fn (user_row s uid)) feats),
        T2 (Linear.in_features (UserNet.l1 s))
           (map (app (user_row s uid))
              (zip_with app (item_rows s ids)
                 (map (fuse fn (user_row s uid)) feats)))).
Proof.
  intros Hf Hfn Hu Hids Hne Hrect Hlen.
  destruct (fused_wf_inv s fdim Hf) as (fn' & Hfn' & Hs & Hfwf & Hfin & Hl1).
  assert (fn' = fn) as -> by congruence.
  destruct (user_row_lookup s uid Hs Hu) as (i & _ & _ & Hulen).
  rewrite value_concat, (lookups_ok s uid ids Hs Hu Hids Hne).
  cbn [rbind fst snd]. unfold components_of.
  rewrite Hfn. cbn [tensor_of_data]. rewrite Hrect. cbn [rbind].
  rewrite (feature_forward_batch (UserNet.emb_dim s) fdim) by assumption.
  cbn [fst rbind shape0 shape expand]. rewrite Hulen.
  assert (length (item_rows s ids) = length ids) as Hn
    by (unfold item_rows; apply length_map).
  rewrite cat_fused by (rewrite length_map; congruence).
  cbn [rbind]. rewrite Hl1. reflexivity.
Qed.

(** X5: with feature fusion, for a known user, a non-empty list of known
    items and one feature row of the module's width per item, [forward]
    returns [u + Σ_n w_n · I_n], a vector of [emb_dim] entries; the weights
    are the softmax over the items of the logits
    layer2(ReLU(layer1([u, I_n, C_n]))), where [C_n] is what [FeatureNet]
    returns on the [n]-th feature row; the model and the generator are
    left as they were. *)
Theorem score_user_fused_pooling {A} `{Num.t A} (s : UserNet.t A) fdim
    uid ids feats g :
  fused_wf s fdim = true ->
  UserNet.known (UserNet.user_dict s) uid = true ->
  forallb (UserNet.known (UserNet.item_dict s)) ids = true ->
  ids <> [] ->
  rect fdim feats = true ->
  length feats = length ids ->
  exists fn,
    UserNet.feats s = Some fn
    /\ let d := UserNet.emb_dim s in
       let u := user_row s uid in
       let rows := item_rows s ids in
       let cs := map (fuse fn u) feats in
       let w := softmax_vec (logits s u (zip_with app rows cs)) in
       UserNet.concat uid ids (Some (T2 fdim feats)) s g
       = (Ok (T1 u, T2 d rows, T2 d cs,
              T2 (3 * d) (map (app u) (zip_with app rows cs))), s, g)
       /\ UserNet.attention uid ids (Some (T2 fdim feats)) s g
          = (Ok (T1 u, T2 d rows, column w), s, g)
       /\ UserNet.forward uid ids (Some (T2 fdim feats)) s g
          = (Ok (T1 (vadd u (weighted_sum d w rows))), s, g)
       /\ length (vadd u (weighted_sum d w rows)) = d
       /\ length w = length ids.
Proof.
  intros Hf Hu Hids Hne Hrect Hlen.
  destruct (fused_wf_inv s fdim Hf) as (fn & Hfn & Hs & Hfwf & Hfin & Hl1).
  exists fn. split; [exact Hfn|]. cbv zeta.
  destruct (user_row_lookup s uid Hs Hu) as (i & _ & _ & Hulen).
  destruct (item_rows_lookup s ids Hs Hids) as (l & _ & _ & _ & Hrows).
  pose proof (fused_concat_closed s fdim fn uid ids feats
                Hf Hfn Hu Hids Hne Hrect Hlen) as Hc.
  pose proof (value_attention_rows s uid ids _ _ _ _ _ Hs Hc) as Ha.
  assert (length (item_rows s ids) = length ids) as Hn
    by (unfold item_rows; apply length_map).
  assert (length (softmax_vec (logits s (user_row s uid)
            (zip_with app (item_rows s ids)
               (map (fuse fn (user_row s uid)) feats)))) = length ids) as Hw.
  { unfold logits. rewrite softmax_vec_length, length_map, length_zip_with,
      length_map. lia. }
  split.
  { rewrite (run_reads _ s g (concat_ro _ _ _)), Hc, Hl1. reflexivity. }
  split.
  { rewrite (run_reads _ s g (attention_ro _ _ _)), Ha. reflexivity. }
  split.
  { rewrite (run_reads _ s g (forward_ro _ _ _)).
    rewrite (value_forward_pool s uid ids _ _ _ _ _ Ha Hulen Hrows)
      by congruence.
    reflexivity. }
  split; [|exact Hw].
  unfold vadd at 1.
  rewrite length_zip_with, length_weighted_sum by exact Hrows. lia.
Qed.

Lemma score_user_fused_pooling_witness :
  exists v,
    UserNet.forward "u1" ["a"; "c"]%string
      (Some (T2 3 [[F32.of_Z 1; F32.of_Z 2; F32.of_Z 3];
                   [F32.of_Z 4; F32.of_Z 5; F32.of_Z 6]])) Sample.fused32 O
    = (Ok (T1 v), Sample.fused32, O).
Proof.
  pose proof (score_user_fused_pooling Sample.fused32 3 "u1" ["a"; "c"]%string
                [[F32.of_Z 1; F32.of_Z 2; F32.of_Z 3];
                 [F32.of_Z 4; F32.of_Z 5; F32.of_Z 6]] O
                ltac:(vm_compute; reflexivity) ltac:(reflexivity)
                ltac:(reflexivity) ltac:(discriminate) ltac:(reflexivity)
                ltac:(reflexivity)) as Hp.
  destruct Hp as (fn & _ & Hp). cbv zeta in Hp.
  destruct Hp as (_ & _ & Hp & _).
  eexists. exact Hp.
Defined.

(** X6: with feature fusion, for a known user and a non-empty list of known
    items, [forward] raises [RuntimeError] on features of the wrong shape:
    rows of a width other than the one the module takes; a number of rows
    other than the number of items; and a single feature vector, which
    [FeatureNet] accepts, when it is not given as a matrix of one row per
    item.  The model and the generator are left as they were. *)
Theorem fused_feature_shape_errors {A} `{Num.t A} (s : UserNet.t A) fdim
    uid ids g :
  fused_wf s fdim = true ->
  UserNet.known (UserNet.user_dict s) uid = true ->
  forallb (UserNet.known (UserNet.item_dict s)) ids = true ->
  ids <> [] ->
  (forall c feats, c <> fdim -> rect c feats = true ->
     UserNet.forward uid ids (Some (T2 c feats)) s g = (Raise RuntimeError, s, g))
  /\ (forall feats, rect fdim feats = true -> length feats <> length ids ->
        UserNet.forward uid ids (Some (T2 fdim feats)) s g
        = (Raise RuntimeError, s, g))
  /\ (forall r, length r = fdim -> (0 < UserNet.emb_dim s)%nat ->
        UserNet.forward uid ids (Some (T1 r)) s g = (Raise RuntimeError, s, g)).
Proof.
  intros Hf Hu Hids Hne.
  destruct (fused_wf_inv s fdim Hf) as (fn & Hfn & Hs & Hfwf & Hfin & Hl1).
  destruct (user_row_lookup s uid Hs Hu) as (i & _ & _ & Hulen).
  assert (length (item_rows s ids) = length ids) as Hn
    by (unfold item_rows; apply length_map).
  assert (forall ft,
            Meth.value (UserNet.concat uid ids ft) s = Raise RuntimeError ->
            UserNet.forward uid ids ft s g = (Raise RuntimeError, s, g)) as Hraise.
  { intros ft Hc. rewrite (run_reads _ s g (forward_ro _ _ _)).
    rewrite (value_forward_raise s uid ids ft _ Hc). reflexivity. }
  pose proof (fun ft => value_concat s uid ids ft) as Hrun.
  rewrite (lookups_ok s uid ids Hs Hu Hids Hne) in Hrun.
  cbn [rbind fst snd] in Hrun. unfold components_of in Hrun.
  rewrite Hfn in Hrun.
  split; [|split].
  - intros c feats Hc Hrect. apply Hraise.
    rewrite Hrun. cbn [tensor_of_data]. rewrite Hrect. cbn [rbind].
    rewrite value_feature_forward.
    cbn [shape length Nat.ltb Nat.leb rbind shape0 expand].
    unfold cat at 1. cbn [List.filter skipped negb foldl rbind cat2].
    rewrite repeat_length, Nat.eqb_refl. cbn [rbind].
    rewrite value_linear, Hfin, Hulen.
    destruct (Nat.eqb_spec (UserNet.emb_dim s + c) (UserNet.emb_dim s + fdim));
      [lia | reflexivity].
  - intros feats Hrect Hlen. apply Hraise.
    rewrite Hrun. cbn [tensor_of_data]. rewrite Hrect. cbn [rbind].
    rewrite (feature_forward_batch (UserNet.emb_dim s) fdim) by assumption.
    cbn [fst rbind shape0 shape expand]. rewrite Hulen.
    rewrite cat_fused_mismatch by (rewrite length_map; congruence).
    reflexivity.
  - intros r Hr Hd. apply Hraise.
    rewrite Hrun. cbn [tensor_of_data rbind].
    rewrite (feature_forward_single (UserNet.emb_dim s) fdim) by assumption.
    cbn [fst rbind shape0 shape expand].
    pose proof (length_fuse _ fn (user_row s uid) r Hfwf) as Hlen.
    destruct (fuse fn (user_row s uid) r) as [|a o]; [simpl in Hlen; lia|].
    unfold cat. cbn [List.filter skipped negb foldl rbind cat2].
    rewrite repeat_length, Nat.eqb_refl. reflexivity.
Qed.

Lemma fused_feature_shape_errors_witness :
  UserNet.forward "u1" ["a"; "c"]%string
    (Some (T2 3 [[F32.of_Z 1; F32.of_Z 2; F32.of_Z 3]])) Sample.fused32 O
  = (Raise RuntimeError, Sample.fused32, O)
  /\ UserNet.forward "u1" ["a"]%string
       (Some (T1 [F32.of_Z 1; F32.of_Z 2; F32.of_Z 3])) Sample.fused32 O
     = (Raise RuntimeError, Sample.fused32, O).
Proof.
  split.
  - pose proof (fused_feature_shape_errors Sample.fused32 3 "u1"
                  ["a"; "c"]%string O ltac:(vm_compute; reflexivity)
                  ltac:(reflexivity) ltac:(reflexivity) ltac:(discriminate))
      as He.
    destruct He as (_ & Hrows & _).
    exact (Hrows [[F32.of_Z 1; F32.of_Z 2; F32.of_Z 3]] eq_refl
             ltac:(discriminate)).
  - pose proof (fused_feature_shape_errors Sample.fused32 3 "u1"
                  ["a"]%string O ltac:(vm_compute; reflexivity)
                  ltac:(reflexivity) ltac:(reflexivity) ltac:(discriminate))
      as He.
    destruct He as (_ & _ & Hvec).
    exact (Hvec [F32.of_Z 1; F32.of_Z 2; F32.of_Z 3] eq_refl
             ltac:(vm_compute; lia)).
Defined.

(** ** The parameters of a constructed model *)

(** X7: [__init__] builds a well-formed model for every list of users and
    items, every embedding dimension and every feature dimension: the
    dictionaries are those of [_create_dict], the embedding tables have one
    row per entry of the lists (repeated identities included), [feats] is
    present exactly when [feature_dim > 0] and then takes rows of
    [emb_dim + feature_dim] entries, the biases [_kaiming_] touches are
    zero, and the generator is consumed. *)
Theorem constructed_model_parameters {A} `{Num.t A} users items emb_dim
    feature_dim g :
  let sg := UserNet.__init__ (A:=A) users items emb_dim feature_dim g in
  UserNet.wf sg.1 = true
  /\ UserNet.user_dict sg.1 = UserNet._create_dict users
  /\ UserNet.item_dict sg.1 = UserNet._create_dict items
  /\ UserNet.emb_dim sg.1 = emb_dim
  /\ Embedding.num_embeddings (UserNet.user_embedding sg.1) = length users
  /\ Embedding.num_embeddings (UserNet.item_embedding sg.1) = length items
  /\ (is_Some (UserNet.feats sg.1) <-> (0 < feature_dim)%nat)
  /\ Linear.bias (UserNet.l1 sg.1) = zeros emb_dim
  /\ (forall fn, UserNet.feats sg.1 = Some fn ->
        Linear.in_features (FeatureNet.l1 fn) = (emb_dim + feature_dim)%nat
        /\ Linear.bias (FeatureNet.l1 fn) = zeros emb_dim
        /\ Linear.bias (FeatureNet.l2 fn) = zeros emb_dim)
  /\ (g < sg.2)%nat.
Proof.
  intros sg.
  destruct (init_model (A:=A) users items emb_dim feature_dim g)
    as (Hwf & Hud & Hid & Hd & Hfe & Hfn).
  split; [exact Hwf|]. split; [exact Hud|]. split; [exact Hid|].
  split; [exact Hd|].
  split; [|split; [|split; [exact Hfe|split; [|split]]]].
  - unfold sg, UserNet.__init__, FeatureNet.__init__, Linear.__init__,
      Embedding.__init__, UserNet._kaiming_, FeatureNet._kaiming_,
      draw_matrix, draws.
    destruct (0 <? feature_dim)%nat; reflexivity.
  - unfold sg, UserNet.__init__, FeatureNet.__init__, Linear.__init__,
      Embedding.__init__, UserNet._kaiming_, FeatureNet._kaiming_,
      draw_matrix, draws.
    destruct (0 <? feature_dim)%nat; reflexivity.
  - unfold sg, UserNet.__init__, FeatureNet.__init__, Linear.__init__,
      Embedding.__init__, UserNet._kaiming_, FeatureNet._kaiming_,
      draw_matrix, draws.
    destruct (0 <? feature_dim)%nat; reflexivity.
  - intros fn Hsome. split; [apply Hfn, Hsome|].
    revert Hsome.
    unfold sg, UserNet.__init__, FeatureNet.__init__, Linear.__init__,
      Embedding.__init__, UserNet._kaiming_, FeatureNet._kaiming_,
      draw_matrix, draws.
    destruct (0 <? feature_dim)%nat; cbn [fst snd UserNet.feats];
      [|discriminate].
    intros [= <-]. split; reflexivity.
  - apply init_consumes_generator.
Qed.
